(** * ts-validator: a shallow embedding of [index.ts] and its properties

    The schema engine of [index.ts] is embedded as Rocq functions:
    runtime values as an inductive type, thrown exceptions as an explicit
    completion type, every [VType] subclass as a constructor of [Variant],
    and the methods [_parse], [_parseWithRefinements], [parse], [safeParse],
    [refine], [optional], [nullable] as functions over them.

    Modelling conventions.
    - A JS number is an IEEE-754 double, here [spec_float]; [isNaN] is a
      match on [S754_nan] and [===] on numbers is [SFeqb] (so [NaN] differs
      from itself and the two zeros are equal).  A string is a sequence of
      characters with codes below 256, each one UTF-16 code unit, so that
      [String.length] is its [length].
    - An object is the finite map of its own properties (writable data
      properties) together with its prototype; [obj[key]] follows the
      prototype chain, down to the built-in prototypes and to the
      [__proto__] accessor of [Object.prototype].  An array is the list of
      its elements (no holes, no further own properties); a [Date] carries
      its time value; a function is opaque.  Values are finite trees:
      user-defined getters and setters, proxies and cyclic structures are
      not modelled.
    - The environment is the standard one: the built-in prototypes hold
      their methods and nothing else, and the built-ins that the engine
      calls ([Array.isArray], [map], [getTime], [isNaN], [typeof]) are
      the standard ones.  What the engine cannot see through is left to
      the host ([Host]): what [JSON.stringify] renders and when it throws,
      what the properties of a function are, what a user-defined
      [getTime] returns.
    - Whatever the program calls back (refinement predicates, a
      user-defined [getTime]) is a function of its inputs: it terminates
      and has no state.  A refinement predicate may throw anything; a
      user-defined [getTime] is taken not to throw a [ValidationError].
    - A schema object is a tree; [refine], which pushes onto the schema's
      own list and returns [this], is modelled as returning the schema with
      the refinement appended.
    - A shape lists its properties in [for ... in] order; being the
      properties of an object, their names are pairwise distinct.
    - [JSON.stringify] renders a value or throws a [TypeError] (as it does
      on a [BigInt]); it is only assumed to render plain data and
      functions (the latter as [undefined]). *)

From Stdlib Require Import ZArith Floats.SpecFloat.
From stdpp Require Import gmap strings list pretty.

Set Warnings "-register-all,-clear-no-such-hyp".

(** ** Runtime values *)

Abbreviation number := spec_float (only parsing).

(** The built-in prototype objects that property reads can reach. *)
Inductive Intrinsic : Type :=
  | ObjectPrototype
  | ArrayPrototype
  | DatePrototype.

Inductive Value : Type :=
  | VUndefined
  | VNull
  | VBool (b : bool)
  | VNum (n : number)
  | VBigInt (z : Z)
  | VStr (s : string)
  | VSymbol (description : string)
  | VFunction (name : string)
  | VIntrinsic (which : Intrinsic)
  | VDateObj (time : number)
  | VArr (items : list Value)
  | VObj (props : gmap string Value) (proto : Value).

(** An object literal [{...}]: its prototype is [Object.prototype]. *)
Definition plain_object (props : gmap string Value) : Value :=
  VObj props (VIntrinsic ObjectPrototype).

(** The double nearest to an integer (exact below 2^53). *)
Definition number_of_Z (z : Z) : number := binary_normalize 53 1024 z 0 false.

Definition isNaN (n : number) : bool :=
  match n with S754_nan => true | _ => false end.

(** [typeof data] *)
Definition typeof (data : Value) : string :=
  match data with
  | VUndefined => "undefined"
  | VNull => "object"
  | VBool _ => "boolean"
  | VNum _ => "number"
  | VBigInt _ => "bigint"
  | VStr _ => "string"
  | VSymbol _ => "symbol"
  | VFunction _ => "function"
  | VIntrinsic _ | VDateObj _ | VArr _ | VObj _ _ => "object"
  end.

(** The values a literal schema can hold: [string | number | boolean]. *)
Inductive Literal : Type :=
  | LString (s : string)
  | LNumber (n : number)
  | LBoolean (b : bool).

Definition literal_value (val : Literal) : Value :=
  match val with
  | LString s => VStr s
  | LNumber n => VNum n
  | LBoolean b => VBool b
  end.

(** [data === val] for a primitive [val] *)
Definition strict_equals (data : Value) (val : Literal) : bool :=
  match data, val with
  | VStr s, LString t => bool_decide (s = t)
  | VNum x, LNumber y => SFeqb x y
  | VBool a, LBoolean b => bool_decide (a = b)
  | _, _ => false
  end.

(** [undefined], [null], booleans, numbers and strings. *)
Definition is_primitive (value : Value) : bool :=
  match value with
  | VUndefined | VNull | VBool _ | VNum _ | VStr _ => true
  | _ => false
  end.

(** Values that the structural checks cannot tell apart: equal up to the
    sign of zeros, [Array.prototype] being the empty array that it is. *)
Inductive similar : Value → Value → Prop :=
  | similar_refl value : similar value value
  | similar_num x y : SFeqb x y = true → similar (VNum x) (VNum y)
  | similar_arr items items' : Forall2 similar items items' → similar (VArr items) (VArr items')
  | similar_array_prototype : similar (VIntrinsic ArrayPrototype) (VArr []).

(** ** Issues, errors and completions *)

Inductive Segment : Type :=
  | Key (name : string)
  | Index (i : nat).

Abbreviation Path := (list Segment) (only parsing).

Record ValidationIssue : Type := {
  path : Path;
  message : string;
  expected : string;
  received : string;
}.

Record ValidationError : Type := { issues : list ValidationIssue }.

(** What a [throw] carries: a [ValidationError], or anything else. *)
Inductive Thrown : Type :=
  | ThrownValidation (err : ValidationError)
  | ThrownOther (what : string).

(** How a call completes: it returns a value or it throws. *)
Inductive Completion (A : Type) : Type :=
  | Normal (a : A)
  | Throw (e : Thrown).
Arguments Normal {A} a.
Arguments Throw {A} e.

#[global] Instance Completion_ret : MRet Completion := λ A a, Normal a.
#[global] Instance Completion_bind : MBind Completion := λ A B k m,
  match m with
  | Normal a => k a
  | Throw e => Throw e
  end.

Definition returns {A} (c : Completion A) : bool :=
  match c with Normal _ => true | Throw _ => false end.

Definition raises_ValidationError {A} (c : Completion A) : bool :=
  match c with Throw (ThrownValidation _) => true | _ => false end.

Definition raises_other {A} (c : Completion A) : bool :=
  match c with Throw (ThrownOther _) => true | _ => false end.

(** ** The host *)

(** Plain data: primitives, dates, arrays of plain data and object
    literals holding plain data. *)
Inductive plain : Value → Prop :=
  | plain_primitive value : is_primitive value = true → plain value
  | plain_date time : plain (VDateObj time)
  | plain_arr items : Forall plain items → plain (VArr items)
  | plain_obj props :
      (∀ key value, props !! key = Some value → plain value) →
      plain (VObj props (VIntrinsic ObjectPrototype)).

(** What a property name resolves to along a prototype chain: a data
    property, the [__proto__] accessor of [Object.prototype], an accessor
    that throws a [TypeError] (as [caller] and [arguments] of
    [Function.prototype] do), or nothing. *)
Inductive Resolution : Type :=
  | DataProperty (value : Value)
  | ProtoAccessor
  | ThrowingAccessor
  | Absent.

(** What the engine takes from its environment.
    - [JSON_stringify value]: what [JSON.stringify] renders, [None] when
      it throws its [TypeError]; it renders plain data, and functions.
    - [intrinsic_properties which]: the own data properties of a built-in
      prototype, which are its methods.
    - [function_property f key]: what [key] resolves to from the function
      [f] on, through [Function.prototype] and [Object.prototype].
    - [isNaN_call f obj]: [isNaN(f.call(obj))] for a function [f] and an
      object [obj] that is not a [Date] (on which the built-in [getTime]
      throws a [TypeError]); whatever it throws, it is not one of the
      engine's [ValidationError]s. *)
Class Host : Type := {
  JSON_stringify : Value → option string;
  intrinsic_properties : Intrinsic → gmap string Value;
  function_property : string → string → Resolution;
  isNaN_call : string → Value → Completion bool;
  JSON_stringify_plain value : plain value → is_Some (JSON_stringify value);
  JSON_stringify_function f : is_Some (JSON_stringify (VFunction f));
  intrinsic_properties_methods which key value :
    intrinsic_properties which !! key = Some value → ∃ f, value = VFunction f;
  isNaN_call_quiet f obj : raises_ValidationError (isNaN_call f obj) = false;
}.

(** ** Property access *)

(** The own properties of an array: its indices, rendered in decimal, and
    [length]. *)
Definition array_properties (items : list Value) : gmap string Value :=
  <["length" := VNum (number_of_Z (Z.of_nat (length items)))]>
    (list_to_map (imap (λ i item, (pretty i, item)) items)).

(** [Object.getPrototypeOf(obj)] for the objects whose properties the
    engine reads, which are of type ["object"] ([null] stands for the
    rest). *)
Definition prototype_of (obj : Value) : Value :=
  match obj with
  | VObj _ proto => proto
  | VArr _ => VIntrinsic ArrayPrototype
  | VDateObj _ => VIntrinsic DatePrototype
  | VIntrinsic ObjectPrototype => VNull
  | VIntrinsic _ => VIntrinsic ObjectPrototype
  | _ => VNull
  end.

(** Resolution in [Object.prototype], where the chains of built-in
    prototypes end. *)
Definition resolve_in_Object_prototype `{Host} (key : string) : Resolution :=
  if decide (key = "__proto__") then ProtoAccessor
  else match intrinsic_properties ObjectPrototype !! key with
       | Some value => DataProperty value
       | None => Absent
       end.

(** Resolution in a built-in prototype and what it inherits from. *)
Definition resolve_in_prototype `{Host} (which : Intrinsic) (key : string) : Resolution :=
  match which with
  | ObjectPrototype => resolve_in_Object_prototype key
  | ArrayPrototype =>
      match (array_properties [] ∪ intrinsic_properties ArrayPrototype) !! key with
      | Some value => DataProperty value
      | None => resolve_in_Object_prototype key
      end
  | DatePrototype =>
      match intrinsic_properties DatePrototype !! key with
      | Some value => DataProperty value
      | None => resolve_in_Object_prototype key
      end
  end.

(** Resolution from a value that is not an ordinary object. *)
Definition resolve_built_in `{Host} (obj : Value) (key : string) : Resolution :=
  match obj with
  | VIntrinsic which => resolve_in_prototype which key
  | VArr items =>
      match array_properties items !! key with
      | Some value => DataProperty value
      | None => resolve_in_prototype ArrayPrototype key
      end
  | VDateObj _ => resolve_in_prototype DatePrototype key
  | VFunction f => function_property f key
  | _ => Absent
  end.

(** Resolution along the prototype chain of any object. *)
Fixpoint resolve `{Host} (obj : Value) (key : string) : Resolution :=
  match obj with
  | VObj props proto =>
      match props !! key with
      | Some value => DataProperty value
      | None => resolve proto key
      end
  | _ => resolve_built_in obj key
  end.

(** [obj[key]] *)
Definition get `{Host} (obj : Value) (key : string) : Completion Value :=
  match resolve obj key with
  | DataProperty value => Normal value
  | ProtoAccessor => Normal (prototype_of obj)
  | ThrowingAccessor => Throw (ThrownOther "TypeError")
  | Absent => Normal VUndefined
  end.

(** [data instanceof Date]: [Date.prototype] is among the prototypes of
    [data]. *)
Fixpoint instanceof_Date (data : Value) : bool :=
  match data with
  | VDateObj _ => true
  | VObj _ proto =>
      match proto with
      | VIntrinsic DatePrototype => true
      | _ => instanceof_Date proto
      end
  | _ => false
  end.

(** [isNaN(data.getTime())]: a [Date] answers with its time value; on
    another object the function found under [getTime] is called, and
    calling what is not a function is a [TypeError]. *)
Definition isNaN_getTime `{Host} (data : Value) : Completion bool :=
  match data with
  | VDateObj time => Normal (isNaN time)
  | _ =>
      getTime ← get data "getTime";
      match getTime with
      | VFunction f => isNaN_call f data
      | _ => Throw (ThrownOther "TypeError")
      end
  end.

(** What the [__proto__] setter accepts as a prototype: an object or
    [null]. *)
Definition can_be_prototype (value : Value) : bool :=
  match value with
  | VNull | VFunction _ | VIntrinsic _ | VDateObj _ | VArr _ | VObj _ _ => true
  | _ => false
  end.

(** [result[key] = value] on the object that [VObject._parse] builds from
    [{}]: an own property is written, except that the name [__proto__]
    reaches the setter of [Object.prototype], which replaces the
    prototype of [result] by an object or [null] and ignores anything
    else. *)
Definition set_property (result : gmap string Value * Value) (key : string) (value : Value)
    : gmap string Value * Value :=
  if decide (key = "__proto__")
  then (result.1, if can_be_prototype value then value else result.2)
  else (<[key := value]> result.1, result.2).

(** ** Schemas *)

Record Refinement : Type := {
  check : Value → Completion bool;
  refinement_message : string;
}.

Inductive Variant (T : Type) : Type :=
  | VString
  | VNumber
  | VBoolean
  | VDate
  | VArray (element : T)
  | VLiteral (val : Literal)
  | VUnion (options : list T)
  | VObject (shape : list (string * T))
  | VOptional (inner : T)
  | VNullable (inner : T).
Arguments VString {T}.
Arguments VNumber {T}.
Arguments VBoolean {T}.
Arguments VDate {T}.
Arguments VArray {T} element.
Arguments VLiteral {T} val.
Arguments VUnion {T} options.
Arguments VObject {T} shape.
Arguments VOptional {T} inner.
Arguments VNullable {T} inner.

(** A schema: the subclass it is an instance of, with that subclass's
    fields, and the base class's private [refinements]. *)
Inductive VType : Type :=
  | Schema (variant : Variant VType) (refinements : list Refinement).

Definition variant (s : VType) : Variant VType :=
  match s with Schema v _ => v end.

Definition refinements (s : VType) : list Refinement :=
  match s with Schema _ rs => rs end.

Definition optional (s : VType) : VType := Schema (VOptional s) [].

Definition nullable (s : VType) : VType := Schema (VNullable s) [].

Definition refine (s : VType) (chk : Value → Completion bool) (msg : string) : VType :=
  Schema (variant s) (refinements s ++ [{| check := chk; refinement_message := msg |}]).

(** The factories of the exported [validator] object. *)
Module validator.
Definition number : VType := Schema VNumber [].
Definition boolean : VType := Schema VBoolean [].
Definition date : VType := Schema VDate [].
Definition array (schema : VType) : VType := Schema (VArray schema) [].
Definition literal (val : Literal) : VType := Schema (VLiteral val) [].
Definition union (schemas : list VType) : VType := Schema (VUnion schemas) [].
Definition object (shape : list (String.string * VType)) : VType := Schema (VObject shape) [].
Definition string : VType := Schema VString [].
End validator.

(** What a property of the exported [validator] object holds. *)
Inductive Member : Type :=
  | MakeSchema (make : VType)
  | MakeArray (make : VType → VType)
  | MakeLiteral (make : Literal → VType)
  | MakeUnion (make : list VType → VType)
  | MakeObject (make : list (string * VType) → VType)
  | Infer
  | ValidationErrorClass
  | Inherited (value : Value).

(** The properties of the object literal [validator], in source order. *)
Definition validator_members : list (string * Member) :=
  [ ("string", MakeSchema validator.string);
    ("number", MakeSchema validator.number);
    ("boolean", MakeSchema validator.boolean);
    ("date", MakeSchema validator.date);
    ("array", MakeArray validator.array);
    ("literal", MakeLiteral validator.literal);
    ("union", MakeUnion validator.union);
    ("object", MakeObject validator.object);
    ("infer", Infer);
    ("ValidationError", ValidationErrorClass) ].

(** [validator[name]]: an own property, or what [Object.prototype]
    provides under that name; [None] is [undefined]. *)
Definition validator_member `{Host} (name : string) : option Member :=
  match (list_to_map validator_members : gmap string Member) !! name with
  | Some member => Some member
  | None =>
      match resolve_in_Object_prototype name with
      | DataProperty value => Some (Inherited value)
      | ProtoAccessor => Some (Inherited (VIntrinsic ObjectPrototype))
      | ThrowingAccessor | Absent => None
      end
  end.

(** [member(...)], the rest of the expression being [use]: calling
    [undefined] throws a [TypeError]. *)
Definition call_member {A} (member : option Member) (use : Member → Completion A)
    : Completion A :=
  match member with
  | Some m => use m
  | None => Throw (ThrownOther "TypeError")
  end.

(** ** The engine *)

Definition segment_to_string (seg : Segment) : string :=
  match seg with
  | Key name => name
  | Index i => pretty i
  end.

(** [path.join('.')] *)
Definition join_path (p : Path) : string :=
  String.concat "." (map segment_to_string p).

Definition quote : string := String (Ascii.ascii_of_nat 34) EmptyString.

(** The [TypeError] of [JSON.stringify]. *)
Definition stringify_error : Thrown := ThrownOther "TypeError".

(** [JSON.stringify(value)] inside a template *)
Definition stringify `{Host} (value : Value) : Completion string :=
  match JSON_stringify value with
  | Some text => Normal text
  | None => Throw stringify_error
  end.

(** The error that [makeError] builds once the value is rendered. *)
Definition structural_error (p : Path) (exp rcv text : string) : ValidationError :=
  {| issues := [
       {| path := p;
          message := "Invalid value at " +:+ quote +:+ join_path p +:+ quote
                     +:+ ": expected " +:+ exp +:+ ", received " +:+ rcv
                     +:+ ". Value: " +:+ text;
          expected := exp;
          received := rcv |} ] |}.

Definition makeError `{Host} (p : Path) (exp rcv : string) (value : Value)
    : Completion ValidationError :=
  text ← stringify value;
  mret (structural_error p exp rcv text).

(** [throw makeError(path, expected, received, value)] *)
Definition throw_makeError `{Host} {A} (p : Path) (exp rcv : string) (value : Value)
    : Completion A :=
  err ← makeError p exp rcv value;
  Throw (ThrownValidation err).
Arguments throw_makeError : simpl never.

Definition refinement_error (p : Path) (msg : string) (value : Value) : ValidationError :=
  {| issues := [
       {| path := p;
          message := msg;
          expected := "refinement to pass";
          received := typeof value |} ] |}.

Fixpoint runRefinements (rs : list Refinement) (value : Value) (p : Path) : Completion unit :=
  match rs with
  | [] => Normal tt
  | r :: rest =>
      ok ← check r value;
      if ok : bool then runRefinements rest value p
      else Throw (ThrownValidation (refinement_error p (refinement_message r) value))
  end.

(** The tail of [_parseWithRefinements], after [this._parse] completed. *)
Definition withRefinements (rs : list Refinement) (p : Path) (parsed : Completion Value)
    : Completion Value :=
  value ← parsed;
  _ ← runRefinements rs value p;
  mret value.

(** [data.map((item, i) => f(i, item))] with a callback that may throw *)
Definition map_items {A B} (f : nat → A → Completion B) : nat → list A → Completion (list B) :=
  fix go (i : nat) (items : list A) : Completion (list B) :=
    match items with
    | [] => Normal []
    | item :: rest =>
        v ← f i item;
        vs ← go (S i) rest;
        mret (v :: vs)
    end.

(** The loop of [VUnion._parse]: return the first option that parses,
    collecting the issues of those that throw a [ValidationError]. *)
Definition try_options {T} (f : T → Completion Value)
    : list T → list ValidationIssue → Completion Value :=
  fix go (options : list T) (errors : list ValidationIssue) : Completion Value :=
    match options with
    | [] => Throw (ThrownValidation {| issues := errors |})
    | option :: rest =>
        match f option with
        | Normal v => Normal v
        | Throw (ThrownValidation err) => go rest (errors ++ issues err)
        | Throw e => Throw e
        end
    end.

(** The loop of [VObject._parse] over the shape, filling [result]. *)
Definition parse_fields {T} (f : string → T → Completion Value)
    : list (string * T) → gmap string Value * Value → Completion Value :=
  fix go (shape : list (string * T)) (result : gmap string Value * Value) : Completion Value :=
    match shape with
    | [] => Normal (VObj result.1 result.2)
    | (key, schema) :: rest =>
        v ← f key schema;
        go rest (set_property result key v)
    end.

(** [const result = {}] *)
Definition empty_result : gmap string Value * Value := (∅, VIntrinsic ObjectPrototype).

Fixpoint _parse `{Host} (s : VType) (p : Path) (data : Value) {struct s} : Completion Value :=
  match s with
  | Schema v _ =>
    match v with
    | VString =>
        match data with
        | VStr _ => Normal data
        | _ => throw_makeError p "string" (typeof data) data
        end
    | VNumber =>
        match data with
        | VNum n =>
            if isNaN n then throw_makeError p "number" (typeof data) data
            else Normal data
        | _ => throw_makeError p "number" (typeof data) data
        end
    | VBoolean =>
        match data with
        | VBool _ => Normal data
        | _ => throw_makeError p "boolean" (typeof data) data
        end
    | VDate =>
        if instanceof_Date data then
          nan ← isNaN_getTime data;
          if nan : bool then throw_makeError p "Date" (typeof data) data
          else Normal data
        else throw_makeError p "Date" (typeof data) data
    | VArray element =>
        match data with
        | VArr items =>
            parsed ← map_items (λ i item, _parse element (p ++ [Index i]) item) 0 items;
            mret (VArr parsed)
        | VIntrinsic ArrayPrototype => Normal (VArr [])
        | _ => throw_makeError p "array" (typeof data) data
        end
    | VLiteral val =>
        if strict_equals data val then Normal (literal_value val)
        else
          text ← stringify (literal_value val);
          throw_makeError p ("literal " +:+ text) (typeof data) data
    | VUnion options =>
        try_options (λ option, _parse option p data) options []
    | VObject shape =>
        match data with
        | VIntrinsic _ | VDateObj _ | VArr _ | VObj _ _ =>
            parse_fields
              (λ key schema,
                 val ← get data key;
                 withRefinements (refinements schema) (p ++ [Key key])
                   (_parse schema (p ++ [Key key]) val))
              shape empty_result
        | _ => throw_makeError p "object" (typeof data) data
        end
    | VOptional inner =>
        match data with
        | VUndefined => Normal VUndefined
        | _ => _parse inner p data
        end
    | VNullable inner =>
        match data with
        | VNull => Normal VNull
        | _ => _parse inner p data
        end
    end
  end.

Definition _parseWithRefinements `{Host} (s : VType) (p : Path) (data : Value)
    : Completion Value :=
  withRefinements (refinements s) p (_parse s p data).

Definition parse `{Host} (s : VType) (data : Value) : Completion Value :=
  _parseWithRefinements s [] data.

(** [{ success: true; data } | { success: false; error }] *)
Inductive ParseResult : Type :=
  | Success (data : Value)
  | Failure (error : ValidationError).

Definition safeParse `{Host} (s : VType) (data : Value) : Completion ParseResult :=
  match
    parsed ← _parse s [] data;
    _ ← runRefinements (refinements s) parsed [];
    mret parsed
  with
  | Normal parsed => Normal (Success parsed)
  | Throw (ThrownValidation err) => Normal (Failure err)
  | Throw e => Throw e
  end.

(** The getter [_type], which throws an [Error] whenever it is read. *)
Definition _type (s : VType) : Completion Value :=
  Throw (ThrownOther "Do not call _type at runtime, it's a type-level property only.").

(** ** A concrete host, values and predicates

    Used to run the engine on concrete inputs; the general theorems below
    are stated for every host.  In this host a user-defined [getTime]
    answers with a number, and the built-in one throws on what is not a
    date. *)

(** The methods of a built-in prototype. *)
Definition methods (owner : string) (names : list string) : gmap string Value :=
  list_to_map (map (λ name, (name, VFunction (owner +:+ "." +:+ name))) names).

Definition Object_prototype_properties : gmap string Value :=
  methods "Object.prototype"
    [ "constructor"; "__defineGetter__"; "__defineSetter__"; "hasOwnProperty";
      "__lookupGetter__"; "__lookupSetter__"; "isPrototypeOf"; "propertyIsEnumerable";
      "toString"; "valueOf"; "toLocaleString" ].

Definition Array_prototype_properties : gmap string Value :=
  methods "Array.prototype"
    [ "constructor"; "at"; "concat"; "copyWithin"; "fill"; "find"; "findIndex";
      "findLast"; "findLastIndex"; "lastIndexOf"; "pop"; "push"; "reverse"; "shift";
      "unshift"; "slice"; "sort"; "splice"; "includes"; "indexOf"; "join"; "keys";
      "entries"; "values"; "forEach"; "filter"; "flat"; "flatMap"; "map"; "every";
      "some"; "reduce"; "reduceRight"; "toLocaleString"; "toString"; "toReversed";
      "toSorted"; "toSpliced"; "with" ].

Definition Date_prototype_properties : gmap string Value :=
  methods "Date.prototype"
    [ "constructor"; "toString"; "toDateString"; "toTimeString"; "toISOString";
      "toUTCString"; "toGMTString"; "getDate"; "setDate"; "getDay"; "getFullYear";
      "setFullYear"; "getHours"; "setHours"; "getMilliseconds"; "setMilliseconds";
      "getMinutes"; "setMinutes"; "getMonth"; "setMonth"; "getSeconds"; "setSeconds";
      "getTime"; "setTime"; "getTimezoneOffset"; "getUTCDate"; "setUTCDate";
      "getUTCDay"; "getUTCFullYear"; "setUTCFullYear"; "getUTCHours"; "setUTCHours";
      "getUTCMilliseconds"; "setUTCMilliseconds"; "getUTCMinutes"; "setUTCMinutes";
      "getUTCMonth"; "setUTCMonth"; "getUTCSeconds"; "setUTCSeconds"; "valueOf";
      "getYear"; "setYear"; "toJSON"; "toLocaleString"; "toLocaleDateString";
      "toLocaleTimeString" ].

(** Whether [JSON.stringify] gets through a value: it throws on a
    [BigInt], met directly, in an array or in an own property, and on
    [Date.prototype] and what inherits its [toJSON] without being a
    date; an object with a [toJSON] method of its own is rendered as
    that method says, whatever it holds. *)
Fixpoint serializable (value : Value) : bool :=
  match value with
  | VBigInt _ => false
  | VIntrinsic DatePrototype => false
  | VArr items => forallb serializable items
  | VObj props _ =>
      match props !! "toJSON" with
      | Some (VFunction _) => true
      | _ =>
          negb (instanceof_Date value)
          && map_fold (λ _ v rest, serializable v && rest) true props
      end
  | _ => true
  end.

(** Strings between quotes (without escapes), the other primitives by
    their names, and everything else by its kind. *)
Definition plain_text (value : Value) : string :=
  match value with
  | VUndefined | VSymbol _ | VFunction _ => "undefined"
  | VNull => "null"
  | VBool true => "true"
  | VBool false => "false"
  | VStr s => quote +:+ s +:+ quote
  | _ => typeof value
  end.

Definition plain_host : Host.
Proof.
  refine {| JSON_stringify := λ value,
              if serializable value then Some (plain_text value) else None;
            intrinsic_properties := λ which,
              match which with
              | ObjectPrototype => Object_prototype_properties
              | ArrayPrototype => Array_prototype_properties
              | DatePrototype => Date_prototype_properties
              end;
            function_property := λ f key,
              if decide (key = "caller" ∨ key = "arguments") then ThrowingAccessor
              else if decide (key = "__proto__") then ProtoAccessor
              else match (<["name" := VStr f]> Object_prototype_properties) !! key with
                   | Some value => DataProperty value
                   | None => Absent
                   end;
            isNaN_call := λ f obj,
              if decide (f = "Date.prototype.getTime") then Throw (ThrownOther "TypeError")
              else Normal false |}.
  - assert (Hplain : ∀ value, plain value → serializable value = true).
    { fix IH 2. intros value [v Hprimitive|time|items Hitems|props Hprops].
      - destruct v; try discriminate; reflexivity.
      - reflexivity.
      - simpl. induction Hitems as [|item items Hitem _ IHitems]; simpl; [reflexivity|].
        rewrite (IH item Hitem), IHitems. reflexivity.
      - simpl.
        assert (Hfold : map_fold (λ _ v rest, serializable v && rest) true props = true).
        { assert (Hall : ∀ key v, props !! key = Some v → serializable v = true)
            by (intros key v Hkey; exact (IH v (Hprops key v Hkey))).
          revert Hall. clear.
          apply (map_fold_weak_ind
                   (λ r (m : gmap string Value),
                      (∀ key v, m !! key = Some v → serializable v = true) → r = true)).
          - reflexivity.
          - intros key v m r Hfresh IHm Hall.
            rewrite (Hall key v (lookup_insert_eq m key v)). simpl. apply IHm.
            intros key' v' Hkey'. apply (Hall key' v').
            rewrite lookup_insert_ne; [exact Hkey'|]. intros ->. congruence. }
        rewrite Hfold. destruct (props !! "toJSON") as [[]|]; reflexivity. }
    intros value Hvalue. rewrite (Hplain value Hvalue). eauto.
  - intros f. simpl. eauto.
  - assert (Hmethods : ∀ owner names key value,
              methods owner names !! key = Some value → ∃ f, value = VFunction f).
    { intros owner names key value Hkey. unfold methods in Hkey.
      apply elem_of_list_to_map_2, list_elem_of_In, in_map_iff in Hkey
        as (name & [= _ <-] & _). eauto. }
    intros [] key value; apply Hmethods.
  - intros f obj. simpl. destruct (decide (f = "Date.prototype.getTime")); reflexivity.
Defined.

(** The number value of an integer literal. *)
Definition int (z : Z) : Value := VNum (number_of_Z z).

(** [() => false] *)
Definition always_false : Value → Completion bool := λ _, Normal false.

(** A predicate that throws an [Error]. *)
Definition always_throws : Value → Completion bool := λ _, Throw (ThrownOther "Error").

(** [(s) => s.length >= n] as the refinement of a string or array schema:
    it is handed a string or an array.  Elsewhere, reading [length] of
    [undefined] or [null] is a [TypeError], and the other values are
    taken to have no such property, which compares as [false]. *)
Definition min_length (n : nat) : Value → Completion bool := λ value,
  match value with
  | VStr s => Normal (bool_decide (n ≤ String.length s))
  | VArr items => Normal (bool_decide (n ≤ length items))
  | VUndefined | VNull => Throw (ThrownOther "TypeError")
  | _ => Normal false
  end.

(** [(n) => n >= 0], for a number (a number schema hands it nothing
    else). *)
Definition non_negative : Value → Completion bool := λ value,
  match value with
  | VNum n => Normal (SFleb (S754_zero false) n)
  | _ => Normal false
  end.

(** [result[key] = value] for each entry in turn. *)
Definition assign (result : gmap string Value * Value) (entries : list (string * Value))
    : gmap string Value * Value :=
  foldl (λ acc entry, set_property acc entry.1 entry.2) result entries.

(** The object that [VObject._parse] returns for the validated values of
    its fields. *)
Definition built_object (entries : list (string * Value)) : Value :=
  VObj (assign empty_result entries).1 (assign empty_result entries).2.

(** The body of the loop of [VObject._parse] for one declared name:
    read the property, check it, run the refinements. *)
Definition field_run `{Host} (p : Path) (data : Value) (key : string) (schema : VType)
    : Completion Value :=
  val ← get data key;
  withRefinements (refinements schema) (p ++ [Key key])
    (_parse schema (p ++ [Key key]) val).

(** ** Classes of schemas and relations between completions *)

(** The schemas a schema owns: its element, options, field schemas or
    inner schema. *)
Definition children (v : Variant VType) : list VType :=
  match v with
  | VArray element => [element]
  | VUnion options => options
  | VObject shape => shape.*2
  | VOptional inner | VNullable inner => [inner]
  | _ => []
  end.

(** Schemas in which no [VObject] occurs. *)
Fixpoint object_free (s : VType) : bool :=
  match s with
  | Schema v _ =>
    match v with
    | VString | VNumber | VBoolean | VDate | VLiteral _ => true
    | VArray element => object_free element
    | VUnion options => forallb object_free options
    | VObject _ => false
    | VOptional inner | VNullable inner => object_free inner
    end
  end.

(** Schemas in which no [VLiteral] occurs. *)
Fixpoint literal_free (s : VType) : bool :=
  match s with
  | Schema v _ =>
    match v with
    | VString | VNumber | VBoolean | VDate => true
    | VLiteral _ => false
    | VArray element => literal_free element
    | VUnion options => forallb literal_free options
    | VObject shape => forallb (λ field, literal_free field.2) shape
    | VOptional inner | VNullable inner => literal_free inner
    end
  end.

(** Every option but the last is free of object schemas, and the last
    satisfies [rec]. *)
Definition objects_last (rec : VType → bool) : list VType → bool :=
  fix go (options : list VType) : bool :=
    match options with
    | [] => true
    | [option] => rec option
    | option :: rest => object_free option && go rest
    end.

(** Schemas in which an option of a union contains an object schema only
    if it is the last option of that union. *)
Fixpoint objects_in_last_option_only (s : VType) : bool :=
  match s with
  | Schema v _ =>
    match v with
    | VString | VNumber | VBoolean | VDate | VLiteral _ => true
    | VArray element => objects_in_last_option_only element
    | VUnion options => objects_last objects_in_last_option_only options
    | VObject shape => forallb (λ field, objects_in_last_option_only field.2) shape
    | VOptional inner | VNullable inner => objects_in_last_option_only inner
    end
  end.

(** The names that a shape declares are pairwise distinct (they are the
    property names of an object; the list representation has to say so). *)
Fixpoint keys_distinct (s : VType) : bool :=
  match s with
  | Schema v _ =>
    match v with
    | VString | VNumber | VBoolean | VDate | VLiteral _ => true
    | VArray element => keys_distinct element
    | VUnion options => forallb keys_distinct options
    | VObject shape =>
        bool_decide (NoDup shape.*1) && forallb (λ field, keys_distinct field.2) shape
    | VOptional inner | VNullable inner => keys_distinct inner
    end
  end.

(** No shape declares the name [__proto__]. *)
Fixpoint declares_no_proto (s : VType) : bool :=
  match s with
  | Schema v _ =>
    match v with
    | VString | VNumber | VBoolean | VDate | VLiteral _ => true
    | VArray element => declares_no_proto element
    | VUnion options => forallb declares_no_proto options
    | VObject shape =>
        bool_decide ("__proto__" ∉ shape.*1)
        && forallb (λ field, declares_no_proto field.2) shape
    | VOptional inner | VNullable inner => declares_no_proto inner
    end
  end.




(** Schemas all of whose refinement predicates complete, on every value,
    in a way that satisfies [Q]. *)
Inductive checks_satisfy (Q : Completion bool → Prop) : VType → Prop :=
  | checks_satisfy_intro v rs :
      Forall (λ r, ∀ value, Q (check r value)) rs →
      Forall (checks_satisfy Q) (children v) →
      checks_satisfy Q (Schema v rs).


(** No predicate throws anything but a [ValidationError]. *)
Definition checks_raise_nothing_else : VType → Prop :=
  checks_satisfy (λ c, raises_other c = false).

(** Two completions that differ at most in the issues they report. *)
Definition agree {A} (c c' : Completion A) : Prop :=
  match c, c' with
  | Normal a, Normal a' => a = a'
  | Throw (ThrownValidation _), Throw (ThrownValidation _) => True
  | Throw (ThrownOther what), Throw (ThrownOther what') => what = what'
  | _, _ => False
  end.

(** The container check of [VObject._parse] passed:
    [!(typeof data !== 'object' || data === null)] *)
Definition is_object (data : Value) : bool :=
  negb (negb (bool_decide (typeof data = "object"))
        || match data with VNull => true | _ => false end).

(** A value and what a schema without literals and objects returns for
    it: the same value, an array being rebuilt item by item and
    [Array.prototype] coming back as the empty array that it is. *)
Inductive kept : Value → Value → Prop :=
  | kept_same value : kept value value
  | kept_arr items items' : Forall2 kept items items' → kept (VArr items) (VArr items')
  | kept_array_prototype : kept (VIntrinsic ArrayPrototype) (VArr []).

(** A value and what a schema that declares no [__proto__] may return
    for it: the same value up to the sign of a zero, an array rebuilt item
    by item, [Array.prototype] as the empty array, or, for anything that
    passes the container check of an object schema, an object built
    anew. *)
Inductive rebuilt : Value → Value → Prop :=
  | rebuilt_same value : rebuilt value value
  | rebuilt_num x y : SFeqb x y = true → rebuilt (VNum x) (VNum y)
  | rebuilt_arr items items' :
      Forall2 rebuilt items items' → rebuilt (VArr items) (VArr items')
  | rebuilt_array_prototype : rebuilt (VIntrinsic ArrayPrototype) (VArr [])
  | rebuilt_obj value props :
      is_object value = true → rebuilt value (plain_object props).

(** A chain of prototypes made of ordinary objects, down to
    [Object.prototype] or [null]. *)
Fixpoint ordinary_chain (proto : Value) : bool :=
  match proto with
  | VNull | VIntrinsic ObjectPrototype => true
  | VObj _ proto' => ordinary_chain proto'
  | _ => false
  end.

(** Ordinary data: any value in which every object is a [Date], an array
    of ordinary data, a built-in prototype, or an object holding ordinary
    data whose prototype is [Object.prototype], [null] or another such
    object (an object literal, an instance of a class,
    [Object.create(null)]); what is left out are the objects made to
    inherit from a [Date], an array, a function, [Array.prototype] or
    [Date.prototype]. *)
Inductive ordinary : Value → Prop :=
  | ordinary_leaf value :
      match value with VArr _ | VObj _ _ => false | _ => true end = true →
      ordinary value
  | ordinary_arr items : Forall ordinary items → ordinary (VArr items)
  | ordinary_obj props proto :
      (∀ key value, props !! key = Some value → ordinary value) →
      ordinary_chain proto = true →
      ordinary proto →
      ordinary (VObj props proto).

(** Plain data, or one of the methods that plain data inherits. *)
Definition plain_or_method (value : Value) : Prop :=
  plain value ∨ ∃ f, value = VFunction f.

(** ** Example schemas and inputs *)


(** [union([object({c: number().optional()}), object({a: number()})])] *)
Definition first_match_union : VType :=
  validator.union
    [ validator.object [("c", optional validator.number)];
      validator.object [("a", validator.number)] ].

(** [union([string(), object({a: number()})])] *)
Definition string_or_record : VType :=
  validator.union [validator.string; validator.object [("a", validator.number)]].

(** [object({username: string().refine(s => s.length >= 3, ...),
             age: number().refine(n => n >= 0, ...)})] *)
Definition user_schema : VType :=
  validator.object
    [ ("username", refine validator.string (min_length 3)
                     "Username must be at least 3 characters");
      ("age", refine validator.number non_negative "Must be non-negative") ].

(** [array(object({age: number().refine(n => n >= 0, ...)}))] *)
Definition ages_schema : VType :=
  validator.array
    (validator.object [("age", refine validator.number non_negative "Must be non-negative")]).

(** * Properties *)

Section engine_facts.
Context `{Host}.

(** The structural check reads the subclass and its fields only. *)
Lemma _parse_refine s chk msg p data :
  _parse (refine s chk msg) p data = _parse s p data.
Proof. destruct s; reflexivity. Qed.

(** [throw makeError(...)] throws the structural error once the value is
    rendered, and the [TypeError] of [JSON.stringify] otherwise. *)
Lemma throw_makeError_cases {A} p exp rcv value :
  (∃ text, JSON_stringify value = Some text
           ∧ @throw_makeError _ A p exp rcv value
             = Throw (ThrownValidation (structural_error p exp rcv text)))
  ∨ (JSON_stringify value = None
     ∧ @throw_makeError _ A p exp rcv value = Throw stringify_error).
Proof.
  unfold throw_makeError, makeError, stringify.
  destruct (JSON_stringify value) as [text|]; simpl; eauto.
Qed.

Lemma throw_makeError_plain {A} p exp rcv value :
  plain value →
  ∃ text, JSON_stringify value = Some text
          ∧ @throw_makeError _ A p exp rcv value
            = Throw (ThrownValidation (structural_error p exp rcv text)).
Proof.
  intros Hplain. destruct (JSON_stringify_plain value Hplain) as [text Htext].
  destruct (@throw_makeError_cases A p exp rcv value) as [Hsome|[Hnone _]]; [exact Hsome|].
  congruence.
Qed.

Lemma throw_makeError_returns {A} p exp rcv value :
  returns (@throw_makeError _ A p exp rcv value) = false.
Proof.
  destruct (@throw_makeError_cases A p exp rcv value) as [(text & _ & ->)|[_ ->]]; reflexivity.
Qed.

Lemma throw_makeError_Normal {A} p exp rcv value (a : A) :
  throw_makeError p exp rcv value = Normal a → False.
Proof.
  intros Hrun. pose proof (@throw_makeError_returns A p exp rcv value) as Hret.
  rewrite Hrun in Hret. discriminate.
Qed.


Lemma throw_makeError_other {A} p exp rcv value what :
  @throw_makeError _ A p exp rcv value = Throw (ThrownOther what) →
  JSON_stringify value = None ∧ ThrownOther what = stringify_error.
Proof.
  destruct (@throw_makeError_cases A p exp rcv value) as [(text & Htext & ->)|[Hnone ->]].
  - discriminate.
  - intros [= <-]. auto.
Qed.

Lemma throw_makeError_agree {A} p p' exp rcv value :
  agree (@throw_makeError _ A p exp rcv value) (@throw_makeError _ A p' exp rcv value).
Proof.
  unfold throw_makeError, makeError, stringify.
  destruct (JSON_stringify value); simpl; auto.
Qed.

Lemma withRefinements_Normal rs p c value :
  withRefinements rs p c = Normal value →
  c = Normal value ∧ runRefinements rs value p = Normal tt.
Proof.
  unfold withRefinements. destruct c as [v|e]; simpl; [|discriminate].
  destruct (runRefinements rs v p) as [[]|e] eqn:Hrs; simpl; [|discriminate].
  intros [= ->]. auto.
Qed.

Lemma withRefinements_nil p c : withRefinements [] p c = c.
Proof. destruct c; reflexivity. Qed.

(** The refinements before the first failing one, all passing, are
    skipped over; what follows the failing one is never consulted. *)
Lemma runRefinements_first_failure passed r later value p :
  Forall (λ q, check q value = Normal true) passed →
  check r value = Normal false →
  runRefinements (passed ++ r :: later) value p
  = Throw (ThrownValidation (refinement_error p (refinement_message r) value)).
Proof.
  intros Hpassed Hr. induction Hpassed as [|q passed Hq _ IH]; simpl.
  - rewrite Hr. reflexivity.
  - rewrite Hq. simpl. exact IH.
Qed.

(** Whether the refinements pass depends on the value, not on the path. *)
Lemma runRefinements_Normal_path rs value p p' :
  runRefinements rs value p = Normal tt → runRefinements rs value p' = Normal tt.
Proof.
  induction rs as [|r rs IH]; simpl; [reflexivity|].
  destruct (check r value) as [[]|e]; simpl; try discriminate. exact IH.
Qed.
End engine_facts.

(** ** Refinements (C8) and [safeParse] (C7) *)

Section refinements_and_safeParse.
Context `{Host}.

(** C7. [safeParse] runs the pipeline of [parse] and differs from it on
    thrown [ValidationError]s only: a returned value is wrapped as the
    success branch, a thrown [ValidationError] is returned as the failure
    branch carrying that very error, and anything else that is thrown is
    thrown again unchanged.  So [safeParse] never throws a
    [ValidationError]; and the [Error] of the type-level accessor, read
    by a refinement predicate, comes out of [safeParse] as thrown. *)
Theorem safeParse_catches_exactly_ValidationError (s : VType) (data : Value) :
  safeParse s data
  = match parse s data with
    | Normal value => Normal (Success value)
    | Throw (ThrownValidation err) => Normal (Failure err)
    | Throw (ThrownOther what) => Throw (ThrownOther what)
    end
  ∧ raises_ValidationError (safeParse s data) = false
  ∧ safeParse (refine validator.string (λ _, _ ← _type validator.string; mret true) "m")
      (VStr "x")
    = Throw (ThrownOther "Do not call _type at runtime, it's a type-level property only.").
Proof.
  split; [|split; [|reflexivity]];
    unfold safeParse, parse, _parseWithRefinements, withRefinements;
    (destruct (_parse s [] data) as [value|[err|what]]; simpl; auto);
    destruct (runRefinements (refinements s) value []) as [[]|[err|what]]; simpl; auto.
Qed.

(** C8. [refine] appends to the schema's list and leaves the structural
    check alone; a structural failure is thrown before any refinement is
    consulted; after a structural success the refinements run in list
    order and the first whose predicate returns false throws an error with
    that refinement's message alone, whatever the later refinements are
    (they may even throw).  In particular two refinements "A" then "B" on
    a schema without others, the first failing, yield the single issue
    "A". *)
Theorem refinements_run_in_order_and_stop_at_first_failure :
  (∀ s chk msg,
     refinements (refine s chk msg)
     = refinements s ++ [{| check := chk; refinement_message := msg |}]
     ∧ variant (refine s chk msg) = variant s)
  ∧ (∀ s data e, _parse s [] data = Throw e → parse s data = Throw e)
  ∧ (∀ s data value passed r later,
       _parse s [] data = Normal value →
       refinements s = passed ++ r :: later →
       Forall (λ q, check q value = Normal true) passed →
       check r value = Normal false →
       parse s data
       = Throw (ThrownValidation
           {| issues := [ {| path := []; message := refinement_message r;
                             expected := "refinement to pass";
                             received := typeof value |} ] |}))
  ∧ (∀ s data value chkA chkB,
       refinements s = [] →
       _parse s [] data = Normal value →
       chkA value = Normal false →
       parse (refine (refine s chkA "A") chkB "B") data
       = Throw (ThrownValidation
           {| issues := [ {| path := []; message := "A";
                             expected := "refinement to pass";
                             received := typeof value |} ] |})).
Proof.
  split; [|split; [|split]].
  - intros s chk msg. destruct s; split; reflexivity.
  - intros s data e He. unfold parse, _parseWithRefinements. rewrite He. reflexivity.
  - intros s data value passed r later Hv Hrs Hpassed Hr.
    unfold parse, _parseWithRefinements, withRefinements. rewrite Hv, Hrs. simpl.
    rewrite (runRefinements_first_failure passed r later value [] Hpassed Hr).
    reflexivity.
  - intros s data value chkA chkB Hrs Hv HA.
    unfold parse, _parseWithRefinements, withRefinements.
    rewrite !_parse_refine, Hv. simpl.
    destruct s as [v rs]. simpl in Hrs. subst rs. simpl. rewrite HA. reflexivity.
Qed.

End refinements_and_safeParse.

(** ** Modifiers and arrays use the structural check of the wrapped schema *)

Section structural_delegation.
Context `{Host}.

(** [VOptional._parse] and [VNullable._parse] call the inner schema's
    [_parse]: the inner schema's refinements play no part. *)
Lemma parse_optional_delegates s data :
  data ≠ VUndefined → parse (optional s) data = _parse s [] data.
Proof.
  intros Hdata. unfold parse, _parseWithRefinements, optional. simpl refinements.
  rewrite withRefinements_nil. destruct data; try reflexivity. congruence.
Qed.

Lemma parse_nullable_delegates s data :
  data ≠ VNull → parse (nullable s) data = _parse s [] data.
Proof.
  intros Hdata. unfold parse, _parseWithRefinements, nullable. simpl refinements.
  rewrite withRefinements_nil. destruct data; try reflexivity. congruence.
Qed.

Lemma map_items_app {A B} (f : nat → A → Completion B) i before after :
  map_items f i (before ++ after)
  = parsed ← map_items f i before;
    rest ← map_items f (i + length before) after;
    mret (parsed ++ rest).
Proof.
  revert i. induction before as [|item before IH]; intros i; simpl.
  - rewrite Nat.add_0_r. destruct (map_items f i after); reflexivity.
  - destruct (f i item) as [v|e]; simpl; [|reflexivity].
    rewrite IH. replace (S i + length before) with (i + S (length before)) by lia.
    destruct (map_items f (S i) before) as [vs|e]; simpl; [|reflexivity].
    destruct (map_items f (i + S (length before)) after); reflexivity.
Qed.

Lemma map_items_returns {A B} (f : nat → A → Completion B) i items :
  (∀ j item, items !! j = Some item → returns (f (i + j) item) = true) →
  returns (map_items f i items) = true.
Proof.
  revert i. induction items as [|item items IH]; intros i Hall; simpl; [reflexivity|].
  specialize (Hall 0 item eq_refl) as H0. rewrite Nat.add_0_r in H0.
  destruct (f i item) as [v|e]; simpl; [|discriminate].
  specialize (IH (S i)). destruct (map_items f (S i) items); simpl; [reflexivity|].
  apply IH. intros j x Hj. replace (S i + j) with (i + S j) by lia.
  apply Hall. exact Hj.
Qed.

(** The first element whose callback throws decides the outcome. *)
Lemma map_items_fail_fast {A B} (f : nat → A → Completion B) i before item after e :
  (∀ j x, before !! j = Some x → returns (f (i + j) x) = true) →
  f (i + length before) item = Throw e →
  map_items f i (before ++ item :: after) = Throw e.
Proof.
  intros Hbefore Hitem. rewrite map_items_app.
  pose proof (map_items_returns f i before Hbefore) as Hret.
  destruct (map_items f i before) as [vs|e']; simpl in *; [|discriminate].
  rewrite Hitem. reflexivity.
Qed.

End structural_delegation.

(** C1. At the input ["jo"], the schema
    [string().refine(s => s.length >= 3, msg)] throws a [ValidationError]
    (structural check passed, refinement failed), while the same schema
    under [optional()] or [nullable()] returns ["jo"]: the wrappers run
    the inner structural check and skip the inner refinements. *)
Theorem optional_and_nullable_skip_inner_refinements :
  let inner := refine validator.string (min_length 3) "Username must be at least 3 characters" in
  @parse plain_host inner (VStr "jo")
  = Throw (ThrownValidation
      {| issues := [ {| path := [];
                        message := "Username must be at least 3 characters";
                        expected := "refinement to pass";
                        received := "string" |} ] |})
  ∧ @parse plain_host (optional inner) (VStr "jo") = Normal (VStr "jo")
  ∧ @parse plain_host (nullable inner) (VStr "jo") = Normal (VStr "jo").
Proof. repeat split; reflexivity. Qed.

(** C2. At the input [[-1]], the element schema
    [number().refine(n => n >= 0, msg)] rejects [-1] on its own, while
    [array] of that schema returns [[-1]]: [VArray._parse] runs the
    element's structural check and skips the element's refinements. *)
Theorem array_skips_element_refinements :
  let element := refine validator.number non_negative "Must be non-negative" in
  @parse plain_host element (int (-1))
  = Throw (ThrownValidation
      {| issues := [ {| path := [];
                        message := "Must be non-negative";
                        expected := "refinement to pass";
                        received := "number" |} ] |})
  ∧ @parse plain_host (validator.array element) (VArr [int (-1)]) = Normal (VArr [int (-1)]).
Proof. split; reflexivity. Qed.

(** ** The enum factory (C3) *)

(** C3. The exported [validator] object has no member [enum]: the name
    resolves to [undefined], so [validator.enum(...)], which the tests
    and the README call, throws a [TypeError] before any schema exists,
    whatever is then done with the result; the eight factories that the
    object does define are found under their names. *)
Theorem validator_has_no_enum_factory :
  @validator_member plain_host "enum" = None
  ∧ (∀ (use : Member → Completion Value),
       call_member (@validator_member plain_host "enum") use
       = Throw (ThrownOther "TypeError"))
  ∧ validator_members.*1
    = [ "string"; "number"; "boolean"; "date"; "array"; "literal"; "union"; "object";
        "infer"; "ValidationError" ]
  ∧ call_member (@validator_member plain_host "number")
      (λ member, match member with
                 | MakeSchema schema => @parse plain_host schema (int 0)
                 | _ => Throw (ThrownOther "TypeError")
                 end)
    = Normal (int 0).
Proof.
  assert (Henum : @validator_member plain_host "enum" = None) by (vm_compute; reflexivity).
  split; [exact Henum|]. split; [|split].
  - intros use. rewrite Henum. reflexivity.
  - reflexivity.
  - vm_compute. reflexivity.
Qed.

(** ** Union aggregation (C4) *)

Section union_aggregation.
Context `{Host}.

Lemma try_options_all_fail {T} (f : T → Completion Value) options errs collected :
  Forall2 (λ option err, f option = Throw (ThrownValidation err)) options errs →
  try_options f options collected
  = Throw (ThrownValidation {| issues := collected ++ concat (map issues errs) |}).
Proof.
  intros Hall. revert collected.
  induction Hall as [|option err options errs Hoption _ IH]; intros collected; simpl.
  - rewrite app_nil_r. reflexivity.
  - rewrite Hoption, IH, app_assoc. reflexivity.
Qed.

(** What a literal schema throws on a string that is not its own. *)
Lemma literal_rejects_other_string (own other : string) p :
  own ≠ other →
  ∃ rendered text,
    JSON_stringify (VStr own) = Some rendered
    ∧ _parse (validator.literal (LString own)) p (VStr other)
      = Throw (ThrownValidation
          (structural_error p ("literal " +:+ rendered) "string" text)).
Proof.
  intros Hne.
  destruct (JSON_stringify_plain (VStr own) (plain_primitive (VStr own) eq_refl)) as [rendered Hown].
  destruct (@throw_makeError_plain _ Value p ("literal " +:+ rendered) "string" (VStr other)
              (plain_primitive (VStr other) eq_refl)) as (text & _ & Hthrow).
  exists rendered, text. split; [exact Hown|]. simpl.
  rewrite bool_decide_eq_false_2 by congruence.
  unfold stringify. rewrite Hown. simpl. exact Hthrow.
Qed.

(** C4. When the structural parse of every member throws a
    [ValidationError], the union throws a [ValidationError] whose issues
    are the members' issues concatenated in member order, from [_parse] at
    any path, from [parse], and as the failure branch of [safeParse].
    For [union([literal("a"), literal("b")])] and the input ["c"],
    [safeParse] returns the failure branch with exactly two issues, the
    first expecting the literal "a" and the second the literal "b". *)
Theorem union_concatenates_member_issues :
  (∀ options rs p data errs,
     Forall2 (λ option err, _parse option p data = Throw (ThrownValidation err)) options errs →
     _parse (Schema (VUnion options) rs) p data
     = Throw (ThrownValidation {| issues := concat (map issues errs) |}))
  ∧ (∀ options rs data errs,
       Forall2 (λ option err, _parse option [] data = Throw (ThrownValidation err)) options errs →
       parse (Schema (VUnion options) rs) data
       = Throw (ThrownValidation {| issues := concat (map issues errs) |})
       ∧ safeParse (Schema (VUnion options) rs) data
         = Normal (Failure {| issues := concat (map issues errs) |}))
  ∧ (∃ first second a b,
       JSON_stringify (VStr "a") = Some a
       ∧ JSON_stringify (VStr "b") = Some b
       ∧ safeParse (validator.union [validator.literal (LString "a");
                                     validator.literal (LString "b")]) (VStr "c")
         = Normal (Failure {| issues := [first; second] |})
       ∧ expected first = "literal " +:+ a
       ∧ expected second = "literal " +:+ b
       ∧ path first = [] ∧ path second = []).
Proof.
  assert (Hstructural : ∀ options rs p data errs,
     Forall2 (λ option err, _parse option p data = Throw (ThrownValidation err)) options errs →
     _parse (Schema (VUnion options) rs) p data
     = Throw (ThrownValidation {| issues := concat (map issues errs) |})).
  { intros options rs p data errs Hall. simpl.
    exact (try_options_all_fail (λ option, _parse option p data) options errs [] Hall). }
  assert (Hfull : ∀ options rs data errs,
       Forall2 (λ option err, _parse option [] data = Throw (ThrownValidation err)) options errs →
       parse (Schema (VUnion options) rs) data
       = Throw (ThrownValidation {| issues := concat (map issues errs) |})
       ∧ safeParse (Schema (VUnion options) rs) data
         = Normal (Failure {| issues := concat (map issues errs) |})).
  { intros options rs data errs Hall.
    pose proof (Hstructural options rs [] data errs Hall) as Hthrow.
    split.
    - unfold parse, _parseWithRefinements. rewrite Hthrow. reflexivity.
    - unfold safeParse. rewrite Hthrow. reflexivity. }
  split; [exact Hstructural|]. split; [exact Hfull|].
  destruct (literal_rejects_other_string "a" "c" []) as (a & ta & Ha & Hfirst); [discriminate|].
  destruct (literal_rejects_other_string "b" "c" []) as (b & tb & Hb & Hsecond); [discriminate|].
  eexists _, _, a, b. split; [exact Ha|]. split; [exact Hb|]. split.
  - apply (proj2 (Hfull [validator.literal (LString "a"); validator.literal (LString "b")] []
                    (VStr "c")
                    [structural_error [] ("literal " +:+ a) "string" ta;
                     structural_error [] ("literal " +:+ b) "string" tb]
                    ltac:(repeat constructor; assumption))).
  - repeat split.
Qed.

End union_aggregation.

(** ** Array fail-fast (C5) *)

(** C5. Array validation stops at the first failing element: when the
    elements before position [length before] pass the element check and
    the element at that position throws [e], the array parse throws that
    same [e], whatever follows (the elements after it have no influence on
    the outcome).  [array(number()).parse([1, "x", 2])] throws a
    [ValidationError] with the single issue at path [[1]], and no issue
    mentions index 2. *)
Theorem array_is_fail_fast `{Host} :
  (∀ element rs p before item after e,
     (∀ j x, before !! j = Some x → returns (_parse element (p ++ [Index j]) x) = true) →
     _parse element (p ++ [Index (length before)]) item = Throw e →
     _parse (Schema (VArray element) rs) p (VArr (before ++ item :: after)) = Throw e)
  ∧ (∀ element rs before item after e,
       (∀ j x, before !! j = Some x → returns (_parse element [Index j] x) = true) →
       _parse element [Index (length before)] item = Throw e →
       parse (Schema (VArray element) rs) (VArr (before ++ item :: after)) = Throw e)
  ∧ (∃ issue,
       parse (validator.array validator.number) (VArr [int 1; VStr "x"; int 2])
       = Throw (ThrownValidation {| issues := [issue] |})
       ∧ path issue = [Index 1]
       ∧ expected issue = "number"
       ∧ received issue = "string"
       ∧ Index 2 ∉ path issue).
Proof.
  assert (Hstructural : ∀ element rs p before item after e,
     (∀ j x, before !! j = Some x → returns (_parse element (p ++ [Index j]) x) = true) →
     _parse element (p ++ [Index (length before)]) item = Throw e →
     _parse (Schema (VArray element) rs) p (VArr (before ++ item :: after)) = Throw e).
  { intros element rs p before item after e Hbefore Hitem. simpl.
    rewrite (map_items_fail_fast
               (λ i x, _parse element (p ++ [Index i]) x) 0 before item after e);
      [reflexivity|exact Hbefore|exact Hitem]. }
  assert (Hfull : ∀ element rs before item after e,
       (∀ j x, before !! j = Some x → returns (_parse element [Index j] x) = true) →
       _parse element [Index (length before)] item = Throw e →
       parse (Schema (VArray element) rs) (VArr (before ++ item :: after)) = Throw e).
  { intros element rs before item after e Hbefore Hitem.
    unfold parse, _parseWithRefinements.
    rewrite (Hstructural element rs [] before item after e Hbefore Hitem). reflexivity. }
  split; [exact Hstructural|]. split; [exact Hfull|].
  destruct (@throw_makeError_plain _ Value [Index 1] "number" "string" (VStr "x")
              (plain_primitive (VStr "x") eq_refl)) as (text & _ & Hthrow).
  eexists. split.
  - apply (Hfull validator.number [] [int 1] (VStr "x") [int 2]).
    + intros [|j] x Hx; [|discriminate]. injection Hx as <-. reflexivity.
    + exact Hthrow.
  - simpl. repeat split.
    intros Hin. apply list_elem_of_singleton in Hin. discriminate.
Qed.

(** ** Objects: pruning (C6) and array inputs (C10) *)

Section object_fields.
Context `{Host}.

Lemma parse_fields_Normal {T} (f : string → T → Completion Value) shape result out :
  parse_fields f shape result = Normal out →
  ∃ values,
    Forall2 (λ field value, f field.1 field.2 = Normal value) shape values
    ∧ out = VObj (assign result (zip shape.*1 values)).1
                 (assign result (zip shape.*1 values)).2.
Proof.
  revert result. induction shape as [|[key schema] shape IH]; intros result; simpl.
  - intros [= <-]. exists []. split; [constructor|reflexivity].
  - destruct (f key schema) as [v|e] eqn:Hf; simpl; [|discriminate].
    intros Hrest. destruct (IH _ Hrest) as (values & Hall & ->).
    exists (v :: values). split; [|reflexivity].
    constructor; [exact Hf|exact Hall].
Qed.

Lemma parse_fields_all_Normal {T} (f : string → T → Completion Value) shape result values :
  Forall2 (λ field value, f field.1 field.2 = Normal value) shape values →
  parse_fields f shape result
  = Normal (VObj (assign result (zip shape.*1 values)).1
                 (assign result (zip shape.*1 values)).2).
Proof.
  intros Hall. revert result.
  induction Hall as [|[key schema] v shape values Hf _ IH]; intros result; simpl.
  - reflexivity.
  - simpl in Hf. rewrite Hf. simpl. apply IH.
Qed.

Lemma parse_fields_Throw {T} (f : string → T → Completion Value) shape result e :
  parse_fields f shape result = Throw e →
  ∃ key schema, (key, schema) ∈ shape ∧ f key schema = Throw e.
Proof.
  revert result. induction shape as [|[key schema] shape IH]; intros result; simpl.
  - discriminate.
  - destruct (f key schema) as [v|e'] eqn:Hf; simpl.
    + intros Hrest. destruct (IH _ Hrest) as (key' & schema' & Hin & Hthrow).
      exists key', schema'. split; [right; exact Hin|exact Hthrow].
    + intros [= ->]. exists key, schema. split; [left|exact Hf].
Qed.



Lemma assign_lookup_other (result : gmap string Value * Value) entries key :
  key ∉ entries.*1 → (assign result entries).1 !! key = result.1 !! key.
Proof.
  unfold assign. revert result.
  induction entries as [|[key' value] entries IH]; intros result Hnotin; simpl; [reflexivity|].
  simpl in Hnotin. apply not_elem_of_cons in Hnotin as [Hne Hnotin].
  rewrite IH by exact Hnotin. unfold set_property. simpl.
  destruct (decide (key' = "__proto__")); simpl; [reflexivity|].
  apply lookup_insert_ne. congruence.
Qed.

(** With distinct keys every entry assigned under a name other than
    [__proto__] can be read back as an own property. *)
Lemma assign_lookup (result : gmap string Value * Value) keys values i key value :
  NoDup keys → key ≠ "__proto__" → keys !! i = Some key → values !! i = Some value →
  (assign result (zip keys values)).1 !! key = Some value.
Proof.
  intros Hnodup Hkey. revert result values i.
  induction Hnodup as [|key' keys Hfresh _ IH]; intros result values i Hi Hvalue.
  - discriminate.
  - destruct values as [|value' values]; [discriminate|].
    destruct i as [|i]; simpl in *.
    + injection Hi as ->. injection Hvalue as ->.
      change ((assign (set_property result key value) (zip keys values)).1 !! key
              = Some value).
      rewrite assign_lookup_other.
      * unfold set_property. rewrite decide_False by exact Hkey. simpl.
        apply lookup_insert_eq.
      * intros Hin. apply Hfresh. apply list_elem_of_fmap in Hin as ([k v] & -> & Hin).
        apply elem_of_zip_l in Hin. exact Hin.
    + exact (IH _ values i Hi Hvalue).
Qed.

(** Without an assignment to [__proto__] the prototype stays as it was. *)
Lemma assign_prototype (result : gmap string Value * Value) entries :
  "__proto__" ∉ entries.*1 → (assign result entries).2 = result.2.
Proof.
  unfold assign. revert result.
  induction entries as [|[key value] entries IH]; intros result Hnotin; simpl; [reflexivity|].
  simpl in Hnotin. apply not_elem_of_cons in Hnotin as [Hne Hnotin].
  rewrite IH by exact Hnotin. unfold set_property.
  rewrite decide_False by congruence. reflexivity.
Qed.

End object_fields.




(** ** Idempotence (C9) *)

(** Induction over a schema and the schemas it owns. *)
Lemma VType_children_ind (P : VType → Prop) :
  (∀ v rs, Forall P (children v) → P (Schema v rs)) → ∀ s, P s.
Proof.
  intros Hstep. fix IH 1. intros [v rs]. apply Hstep.
  destruct v as [| | | |element|val|options|shape|inner|inner]; simpl;
    repeat constructor; try apply IH.
  - induction options as [|option options IHoptions]; constructor; [apply IH|exact IHoptions].
  - induction shape as [|[key schema] shape IHshape]; constructor; [apply IH|exact IHshape].
Qed.

Lemma SFeqb_true_cases x y :
  SFeqb x y = true →
  (x = y ∧ isNaN x = false) ∨ (∃ s s', x = S754_zero s ∧ y = S754_zero s').
Proof.
  unfold SFeqb.
  destruct x as [s|s| |s m e], y as [s'|s'| |s' m' e']; simpl;
    try discriminate; eauto;
    try (destruct s; discriminate); try (destruct s'; discriminate).
  - destruct s, s'; try discriminate; auto.
  - destruct s, s'; try discriminate;
      destruct (Z.compare_spec e e') as [->| |]; try discriminate;
      destruct (Pos.compare_cont Eq m m') eqn:Hm; try discriminate;
      apply Pos.compare_eq in Hm as ->; auto.
Qed.

Lemma SFeqb_refl x : isNaN x = false → SFeqb x x = true.
Proof.
  unfold SFeqb. destruct x as [s|s| |s m e]; simpl; try discriminate; try reflexivity.
  - destruct s; reflexivity.
  - intros _. rewrite Z.compare_refl, Pos.compare_cont_refl. destruct s; reflexivity.
Qed.

Lemma SFeqb_true_r x y : SFeqb x y = true → SFeqb y y = true.
Proof.
  intros Hxy. destruct (SFeqb_true_cases x y Hxy) as [[-> Hnan]|(s & s' & -> & ->)].
  - apply SFeqb_refl. exact Hnan.
  - reflexivity.
Qed.

Lemma SFeqb_true_l x y z : SFeqb x y = true → SFeqb x z = SFeqb y z.
Proof.
  intros Hxy. destruct (SFeqb_true_cases x y Hxy) as [[-> Hnan]|(s & s' & -> & ->)].
  - reflexivity.
  - destruct z; reflexivity.
Qed.

Lemma SFeqb_true_isNaN x y : SFeqb x y = true → isNaN x = false ∧ isNaN y = false.
Proof.
  intros Hxy. destruct (SFeqb_true_cases x y Hxy) as [[-> Hnan]|(s & s' & -> & ->)]; auto.
Qed.

Lemma strict_equals_literal_value d val :
  strict_equals d val = true →
  similar d (literal_value val) ∧ strict_equals (literal_value val) val = true.
Proof.
  destruct d, val; simpl; try discriminate.
  - intros Hab. apply bool_decide_eq_true in Hab as ->.
    split; [apply similar_refl|apply bool_decide_eq_true; reflexivity].
  - intros Hxy. split; [apply similar_num; exact Hxy|exact (SFeqb_true_r _ _ Hxy)].
  - intros Hst. apply bool_decide_eq_true in Hst as ->.
    split; [apply similar_refl|apply bool_decide_eq_true; reflexivity].
Qed.

Lemma forallb_children (f : VType → bool) (l : list VType) :
  forallb f l = true → Forall (λ s, f s = true) l.
Proof.
  intros Hall. apply Forall_forall. intros s Hin.
  apply (proj1 (forallb_forall f l) Hall). apply list_elem_of_In. exact Hin.
Qed.

Lemma try_options_Normal_inv {T} (f : T → Completion Value) options collected w :
  try_options f options collected = Normal w →
  ∃ before option after,
    options = before ++ option :: after
    ∧ Forall (λ o, raises_ValidationError (f o) = true) before
    ∧ f option = Normal w.
Proof.
  revert collected. induction options as [|o options IH]; intros collected; simpl.
  - discriminate.
  - destruct (f o) as [v|[err|what]] eqn:Ho.
    + intros [= ->]. exists [], o, options. repeat split; [constructor|exact Ho].
    + intros Hrest. destruct (IH _ Hrest) as (before & option & after & -> & Hbefore & Hoption).
      exists (o :: before), option, after. repeat split; [|exact Hoption].
      constructor; [rewrite Ho; reflexivity|exact Hbefore].
    + discriminate.
Qed.

Lemma try_options_first_success {T} (f : T → Completion Value) before option after collected w :
  Forall (λ o, raises_ValidationError (f o) = true) before →
  f option = Normal w →
  try_options f (before ++ option :: after) collected = Normal w.
Proof.
  intros Hbefore Hoption. revert collected.
  induction Hbefore as [|o before Ho _ IH]; intros collected; simpl.
  - rewrite Hoption. reflexivity.
  - destruct (f o) as [v|[err|what]]; try discriminate. apply IH.
Qed.

Lemma try_options_Throw_inv {T} (f : T → Completion Value) options collected e :
  try_options f options collected = Throw e →
  (∃ errs,
     Forall2 (λ option err, f option = Throw (ThrownValidation err)) options errs
     ∧ e = ThrownValidation {| issues := collected ++ concat (map issues errs) |})
  ∨ (∃ option what,
       option ∈ options ∧ f option = Throw (ThrownOther what) ∧ e = ThrownOther what).
Proof.
  revert collected. induction options as [|o options IH]; intros collected; simpl.
  - intros [= <-]. left. exists []. split; [constructor|]. simpl. rewrite app_nil_r. reflexivity.
  - destruct (f o) as [v|[err|what]] eqn:Ho; [discriminate| |].
    + intros Hrest. destruct (IH _ Hrest) as [(errs & Hall & ->)|(option & what & Hin & Hthrow & ->)].
      * left. exists (err :: errs). split; [constructor; assumption|].
        simpl. rewrite app_assoc. reflexivity.
      * right. exists option, what. split; [right; exact Hin|auto].
    + intros [= <-]. right. exists o, what. split; [left|auto].
Qed.

Lemma map_items_Normal_inv {A B} (f : nat → A → Completion B) i items parsed :
  map_items f i items = Normal parsed →
  Forall2 (λ item v, ∃ j, f j item = Normal v) items parsed.
Proof.
  revert i parsed. induction items as [|item items IH]; intros i parsed; simpl.
  - intros [= <-]. constructor.
  - destruct (f i item) as [v|e] eqn:Hitem; simpl; [|discriminate].
    destruct (map_items f (S i) items) as [vs|e] eqn:Hrest; simpl; [|discriminate].
    intros [= <-]. constructor; [eauto|exact (IH _ _ Hrest)].
Qed.

Lemma map_items_fixed {A} (f : nat → A → Completion A) i items :
  Forall (λ item, ∀ j, f j item = Normal item) items →
  map_items f i items = Normal items.
Proof.
  intros Hall. revert i. induction Hall as [|item items Hitem _ IH]; intros i; simpl.
  - reflexivity.
  - rewrite Hitem. simpl. rewrite IH. reflexivity.
Qed.

Lemma map_items_Throw {A B} (f : nat → A → Completion B) i items e :
  map_items f i items = Throw e →
  ∃ j item, items !! j = Some item ∧ f (i + j) item = Throw e.
Proof.
  revert i. induction items as [|item items IH]; intros i; simpl; [discriminate|].
  destruct (f i item) as [v|e'] eqn:Hitem; simpl.
  - destruct (map_items f (S i) items) as [vs|e'] eqn:Hrest; simpl; [discriminate|].
    intros [= ->]. destruct (IH _ Hrest) as (j & x & Hj & Hx).
    exists (S j), x. split; [exact Hj|]. rewrite <- Hx. f_equal. lia.
  - intros [= ->]. exists 0, item. split; [reflexivity|]. rewrite Nat.add_0_r. exact Hitem.
Qed.

Section idempotence.
Context `{Host}.

Lemma object_free_objects_last s :
  object_free s = true → objects_in_last_option_only s = true.
Proof.
  induction s as [v rs IH] using VType_children_ind.
  destruct v as [| | | |element|val|options|shape|inner|inner]; simpl in *;
    try reflexivity; try discriminate; try (apply Forall_inv in IH; exact IH).
  induction options as [|option options IHoptions]; simpl; [reflexivity|].
  intros Hfree. apply andb_prop in Hfree as [Hoption Hfree].
  destruct options as [|next options].
  - apply (Forall_inv IH). exact Hoption.
  - rewrite Hoption. simpl. apply IHoptions; [exact (Forall_inv_tail IH)|exact Hfree].
Qed.

(** In a union of the class the options before any given one are free of
    object schemas, and every option is of the class. *)
Lemma objects_last_split before option after :
  objects_last objects_in_last_option_only (before ++ option :: after) = true →
  Forall (λ o, object_free o = true) before
  ∧ objects_in_last_option_only option = true.
Proof.
  induction before as [|o before IH]; simpl.
  - destruct after as [|next after].
    + auto.
    + intros Hclass. apply andb_prop in Hclass as [Hfree _].
      split; [constructor|apply object_free_objects_last; exact Hfree].
  - destruct (before ++ option :: after) as [|next rest] eqn:Hrest.
    + destruct before; discriminate.
    + intros Hclass. apply andb_prop in Hclass as [Hfree Hclass].
      destruct (IH Hclass) as [Hbefore Hoption].
      split; [constructor; assumption|exact Hoption].
Qed.

(** *** What each check returns *)

Lemma date_parse_Normal rs p data w :
  _parse (Schema VDate rs) p data = Normal w →
  w = data ∧ instanceof_Date data = true ∧ isNaN_getTime data = Normal false.
Proof.
  simpl. destruct (instanceof_Date data);
    [|intros Hrun; exfalso; exact (throw_makeError_Normal _ _ _ _ _ Hrun)].
  destruct (isNaN_getTime data) as [[]|e]; simpl.
  - intros Hrun. exfalso. exact (throw_makeError_Normal _ _ _ _ _ Hrun).
  - intros [= <-]. auto.
  - discriminate.
Qed.

Lemma date_parse_accepts rs p data :
  instanceof_Date data = true → isNaN_getTime data = Normal false →
  _parse (Schema VDate rs) p data = Normal data.
Proof. intros Hdate Htime. simpl. rewrite Hdate, Htime. reflexivity. Qed.

Lemma literal_parse_Normal val rs p data w :
  _parse (Schema (VLiteral val) rs) p data = Normal w →
  w = literal_value val ∧ strict_equals data val = true.
Proof.
  simpl. destruct (strict_equals data val); [intros [= <-]; auto|].
  unfold stringify. destruct (JSON_stringify (literal_value val)); simpl; [|discriminate].
  intros Hrun. exfalso. exact (throw_makeError_Normal _ _ _ _ _ Hrun).
Qed.

Lemma array_parse_Normal element rs p data w :
  _parse (Schema (VArray element) rs) p data = Normal w →
  (data = VIntrinsic ArrayPrototype ∧ w = VArr [])
  ∨ (∃ items parsed,
       data = VArr items ∧ w = VArr parsed
       ∧ Forall2 (λ item value, ∃ j, _parse element (p ++ [Index j]) item = Normal value)
           items parsed).
Proof.
  simpl. destruct data as [| | | | | | | |[| |]| | |];
    try (intros Hrun; exfalso; exact (throw_makeError_Normal _ _ _ _ _ Hrun)).
  - intros [= <-]. auto.
  - destruct (map_items _ 0 items) as [parsed|e] eqn:Hitems; simpl; [|discriminate].
    intros [= <-]. right. exists items, parsed. repeat split.
    exact (map_items_Normal_inv _ _ _ _ Hitems).
Qed.

Lemma object_parse_unfold shape rs p data :
  _parse (Schema (VObject shape) rs) p data
  = if is_object data then parse_fields (field_run p data) shape empty_result
    else throw_makeError p "object" (typeof data) data.
Proof. destruct data; reflexivity. Qed.

Lemma field_run_Normal p data key schema value :
  field_run p data key schema = Normal value →
  ∃ val, get data key = Normal val
         ∧ _parse schema (p ++ [Key key]) val = Normal value
         ∧ runRefinements (refinements schema) value (p ++ [Key key]) = Normal tt.
Proof.
  unfold field_run. destruct (get data key) as [val|e]; simpl; [|discriminate].
  intros Hrun. apply withRefinements_Normal in Hrun as [Hrun Hrefs]. eauto.
Qed.

Lemma object_parse_Normal shape rs p data w :
  _parse (Schema (VObject shape) rs) p data = Normal w →
  is_object data = true
  ∧ ∃ values,
      Forall2 (λ field value, field_run p data field.1 field.2 = Normal value) shape values
      ∧ w = built_object (zip shape.*1 values).
Proof.
  rewrite object_parse_unfold. destruct (is_object data).
  - intros Hrun. apply parse_fields_Normal in Hrun as (values & Hall & ->).
    split; [reflexivity|]. exists values. split; [exact Hall|reflexivity].
  - intros Hrun. exfalso. exact (throw_makeError_Normal _ _ _ _ _ Hrun).
Qed.

(** Without [__proto__] among the declared names the output is an object
    literal. *)
Lemma built_object_plain_object (keys : list string) values :
  "__proto__" ∉ keys → length keys = length values →
  built_object (zip keys values) = plain_object (assign empty_result (zip keys values)).1.
Proof.
  intros Hnone Hlength. unfold built_object, plain_object.
  rewrite assign_prototype; [reflexivity|].
  rewrite fst_zip by lia. exact Hnone.
Qed.

(** *** Reading ordinary data *)

Lemma array_properties_lookup items key value :
  array_properties items !! key = Some value →
  value ∈ items ∨ ∃ n, value = VNum n.
Proof.
  unfold array_properties. rewrite lookup_insert. destruct (decide ("length" = key)).
  - intros [= <-]. eauto.
  - intros Hkey. left.
    apply elem_of_list_to_map_2, elem_of_lookup_imap_1 in Hkey as (i & item & [= _ ->] & Hi).
    exact (list_elem_of_lookup_2 _ _ _ Hi).
Qed.

Lemma resolve_in_Object_prototype_value key value :
  resolve_in_Object_prototype key = DataProperty value → ∃ f, value = VFunction f.
Proof.
  unfold resolve_in_Object_prototype. destruct (decide (key = "__proto__")); [discriminate|].
  destruct (intrinsic_properties ObjectPrototype !! key) as [v|] eqn:Hkey; [|discriminate].
  intros [= <-]. exact (intrinsic_properties_methods _ _ _ Hkey).
Qed.

Lemma resolve_in_prototype_value which key value :
  resolve_in_prototype which key = DataProperty value →
  (∃ f, value = VFunction f) ∨ (∃ n, value = VNum n).
Proof.
  destruct which; simpl.
  - intros Hkey. left. exact (resolve_in_Object_prototype_value _ _ Hkey).
  - destruct ((array_properties [] ∪ intrinsic_properties ArrayPrototype) !! key)
      as [v|] eqn:Hkey.
    + intros [= <-]. apply lookup_union_Some_raw in Hkey as [Hkey|[_ Hkey]].
      * apply array_properties_lookup in Hkey as [Hin|Hnum]; [|auto].
        apply elem_of_nil in Hin. destruct Hin.
      * left. exact (intrinsic_properties_methods _ _ _ Hkey).
    + intros Hkey'. left. exact (resolve_in_Object_prototype_value _ _ Hkey').
  - destruct (intrinsic_properties DatePrototype !! key) as [v|] eqn:Hkey.
    + intros [= <-]. left. exact (intrinsic_properties_methods _ _ _ Hkey).
    + intros Hkey'. left. exact (resolve_in_Object_prototype_value _ _ Hkey').
Qed.

Lemma resolve_in_prototype_no_throw which key :
  resolve_in_prototype which key ≠ ThrowingAccessor.
Proof.
  assert (Hobject : resolve_in_Object_prototype key ≠ ThrowingAccessor).
  { unfold resolve_in_Object_prototype. destruct (decide (key = "__proto__")); [discriminate|].
    destruct (intrinsic_properties ObjectPrototype !! key); discriminate. }
  destruct which; simpl; [exact Hobject| |].
  - destruct ((array_properties [] ∪ intrinsic_properties ArrayPrototype) !! key);
      [discriminate|exact Hobject].
  - destruct (intrinsic_properties DatePrototype !! key); [discriminate|exact Hobject].
Qed.

Lemma ordinary_function f : ordinary (VFunction f).
Proof. apply ordinary_leaf. reflexivity. Qed.

Lemma ordinary_number n : ordinary (VNum n).
Proof. apply ordinary_leaf. reflexivity. Qed.

Lemma ordinary_obj_inv props proto :
  ordinary (VObj props proto) →
  (∀ key value, props !! key = Some value → ordinary value)
  ∧ ordinary_chain proto = true ∧ ordinary proto.
Proof. inversion 1; [discriminate|auto]. Qed.

Lemma ordinary_arr_inv items : ordinary (VArr items) → Forall ordinary items.
Proof. inversion 1; [discriminate|assumption]. Qed.

Lemma resolve_built_in_value obj key value :
  ordinary obj → typeof obj = "object" →
  match obj with VObj _ _ => False | _ => True end →
  resolve_built_in obj key = DataProperty value → ordinary value.
Proof.
  intros Hordinary Htypeof Hkind. destruct obj; try discriminate; try (destruct Hkind; fail);
    unfold resolve_built_in.
  - intros Hkey. apply resolve_in_prototype_value in Hkey as [[f ->]|[n ->]];
      [apply ordinary_function|apply ordinary_number].
  - intros Hkey. apply resolve_in_prototype_value in Hkey as [[f ->]|[n ->]];
      [apply ordinary_function|apply ordinary_number].
  - apply ordinary_arr_inv in Hordinary. rewrite Forall_forall in Hordinary.
    destruct (array_properties items !! key) as [v|] eqn:Hown.
    + intros [= <-]. apply array_properties_lookup in Hown as [Hin|[n ->]];
        [exact (Hordinary _ Hin)|apply ordinary_number].
    + intros Hkey. apply (resolve_in_prototype_value ArrayPrototype) in Hkey
        as [[f ->]|[n ->]]; [apply ordinary_function|apply ordinary_number].
Qed.

Lemma resolve_chain_value proto key value :
  ordinary_chain proto = true → ordinary proto →
  resolve proto key = DataProperty value → ordinary value.
Proof.
  induction proto as [| | | | | | | |which| | |props proto IH]; try discriminate.
  - destruct which; try discriminate. intros _ _ Hkey. simpl in Hkey.
    apply resolve_in_Object_prototype_value in Hkey as [f ->]. apply ordinary_function.
  - intros Hchain Hordinary. apply ordinary_obj_inv in Hordinary as (Hprops & _ & Hproto).
    simpl. destruct (props !! key) as [v|] eqn:Hown.
    + intros [= <-]. exact (Hprops _ _ Hown).
    + apply IH; assumption.
Qed.

Lemma resolve_chain_no_throw proto key :
  ordinary_chain proto = true → resolve proto key ≠ ThrowingAccessor.
Proof.
  induction proto as [| | | | | | | |which| | |props proto IH]; try discriminate.
  - destruct which; try discriminate. intros _.
    exact (resolve_in_prototype_no_throw ObjectPrototype key).
  - simpl. destruct (props !! key); [discriminate|exact IH].
Qed.

(** Reading a property of ordinary data gives ordinary data. *)
Lemma get_ordinary obj key value :
  ordinary obj → is_object obj = true → get obj key = Normal value → ordinary value.
Proof.
  intros Hordinary Hobject. unfold get.
  destruct (resolve obj key) as [v| | |] eqn:Hkey; try discriminate; intros [= <-].
  - destruct obj; try discriminate.
    + exact (resolve_built_in_value _ _ _ Hordinary eq_refl I Hkey).
    + exact (resolve_built_in_value _ _ _ Hordinary eq_refl I Hkey).
    + exact (resolve_built_in_value _ _ _ Hordinary eq_refl I Hkey).
    + apply ordinary_obj_inv in Hordinary as (Hprops & Hchain & Hproto).
      simpl in Hkey. destruct (props !! key) as [own|] eqn:Hown.
      * injection Hkey as <-. exact (Hprops _ _ Hown).
      * exact (resolve_chain_value _ _ _ Hchain Hproto Hkey).
  - destruct obj; try discriminate; simpl; try (apply ordinary_leaf; reflexivity).
    + destruct which; apply ordinary_leaf; reflexivity.
    + apply ordinary_obj_inv in Hordinary as (_ & _ & Hproto). exact Hproto.
  - apply ordinary_leaf. reflexivity.
Qed.

Lemma ordinary_chain_not_Date proto :
  ordinary_chain proto = true →
  instanceof_Date proto = false ∧ proto ≠ VIntrinsic DatePrototype.
Proof.
  induction proto as [| | | | | | | |which| | |props proto IH]; try discriminate.
  - auto.
  - destruct which; try discriminate. auto.
  - simpl. intros Hchain. destruct (IH Hchain) as [Hdate Hne]. split; [|discriminate].
    destruct proto as [| | | | | | | |[| |]| | |]; try exact Hdate; try reflexivity.
    congruence.
Qed.

(** Among ordinary data only [Date] objects pass for dates. *)
Lemma ordinary_instanceof_Date data :
  ordinary data → instanceof_Date data = true → ∃ time, data = VDateObj time.
Proof.
  intros Hordinary Hdate.
  destruct data as [| | | | | | | | |time| |props proto]; try discriminate; [eauto|].
  apply ordinary_obj_inv in Hordinary as (_ & Hchain & _).
  destruct (ordinary_chain_not_Date _ Hchain) as [Hno Hne]. simpl in Hdate.
  destruct proto as [| | | | | | | |[| |]| | |]; congruence.
Qed.

Lemma plain_ordinary value : plain value → ordinary value.
Proof.
  revert value. fix IH 2. intros value [v Hprimitive|time|items Hitems|props Hprops].
  - apply ordinary_leaf. destruct v; try discriminate; reflexivity.
  - apply ordinary_leaf. reflexivity.
  - apply ordinary_arr. induction Hitems as [|item items Hitem _ IHitems]; constructor;
      [exact (IH item Hitem)|exact IHitems].
  - apply ordinary_obj; [|reflexivity|apply ordinary_leaf; reflexivity].
    intros key v Hkey. exact (IH v (Hprops key v Hkey)).
Qed.

(** *** What a check returns, compared with its input *)

(** What a schema that declares no [__proto__] returns is its input
    rebuilt. *)
Lemma parse_output_rebuilt s :
  declares_no_proto s = true →
  ∀ p data w, _parse s p data = Normal w → rebuilt data w.
Proof.
  induction s as [v rs IH] using VType_children_ind. intros Hproto p data w Hparse.
  destruct v as [| | | |element|val|options|shape|inner|inner].
  - simpl in Hparse.
    destruct data; try (exfalso; exact (throw_makeError_Normal _ _ _ _ _ Hparse)).
    injection Hparse as <-. apply rebuilt_same.
  - simpl in Hparse.
    destruct data; try (exfalso; exact (throw_makeError_Normal _ _ _ _ _ Hparse)).
    destruct (isNaN n); [exfalso; exact (throw_makeError_Normal _ _ _ _ _ Hparse)|].
    injection Hparse as <-. apply rebuilt_same.
  - simpl in Hparse.
    destruct data; try (exfalso; exact (throw_makeError_Normal _ _ _ _ _ Hparse)).
    injection Hparse as <-. apply rebuilt_same.
  - apply date_parse_Normal in Hparse as (-> & _ & _). apply rebuilt_same.
  - apply Forall_inv in IH. simpl in Hproto.
    apply array_parse_Normal in Hparse
      as [[-> ->]|(items & parsed & -> & -> & Hitems)]; [apply rebuilt_array_prototype|].
    apply rebuilt_arr. eapply Forall2_impl; [exact Hitems|].
    intros x y (j & Hxy). exact (IH Hproto _ _ _ Hxy).
  - apply literal_parse_Normal in Hparse as [-> Heq].
    destruct data, val; simpl in Heq; try discriminate.
    + apply bool_decide_eq_true in Heq as ->. apply rebuilt_same.
    + apply rebuilt_num. exact Heq.
    + apply bool_decide_eq_true in Heq as ->. apply rebuilt_same.
  - simpl in Hparse, Hproto. apply try_options_Normal_inv in Hparse
      as (before & option & after & -> & _ & Hoption).
    apply forallb_children in Hproto. rewrite Forall_forall in IH, Hproto.
    assert (Hin : option ∈ before ++ option :: after) by set_solver.
    exact (IH option Hin (Hproto option Hin) _ _ _ Hoption).
  - simpl in Hproto. apply andb_prop in Hproto as [Hnone _].
    apply bool_decide_eq_true in Hnone.
    apply object_parse_Normal in Hparse as (Hobject & values & Hall & ->).
    rewrite built_object_plain_object;
      [apply rebuilt_obj; exact Hobject|exact Hnone|].
    rewrite length_fmap. exact (Forall2_length _ _ _ Hall).
  - apply Forall_inv in IH. simpl in Hparse, Hproto.
    destruct data; try (exact (IH Hproto _ _ _ Hparse)).
    injection Hparse as <-. apply rebuilt_same.
  - apply Forall_inv in IH. simpl in Hparse, Hproto.
    destruct data; try (exact (IH Hproto _ _ _ Hparse)).
    injection Hparse as <-. apply rebuilt_same.
Qed.

Lemma assign_values (P : Value → Prop) (result : gmap string Value * Value) entries :
  (∀ key value, result.1 !! key = Some value → P value) →
  Forall (λ entry, P entry.2) entries →
  ∀ key value, (assign result entries).1 !! key = Some value → P value.
Proof.
  unfold assign. intros Hresult Hentries. revert result Hresult.
  induction Hentries as [|[key' value'] entries Hentry _ IH]; intros result Hresult; simpl.
  - exact Hresult.
  - apply IH. unfold set_property. destruct (decide (key' = "__proto__")); simpl.
    + exact Hresult.
    + intros key value. rewrite lookup_insert. destruct (decide (key' = key)).
      * intros [= <-]. exact Hentry.
      * apply Hresult.
Qed.

Lemma plain_arr_inv items : plain (VArr items) → Forall plain items.
Proof. inversion 1; [discriminate|assumption]. Qed.

(** What a schema that declares no [__proto__] returns for ordinary data
    is plain data. *)
Lemma parse_output_plain s :
  declares_no_proto s = true →
  ∀ p data w, ordinary data → _parse s p data = Normal w → plain w.
Proof.
  induction s as [v rs IH] using VType_children_ind. intros Hproto p data w Hdata Hparse.
  destruct v as [| | | |element|val|options|shape|inner|inner].
  - simpl in Hparse.
    destruct data; try (exfalso; exact (throw_makeError_Normal _ _ _ _ _ Hparse)).
    injection Hparse as <-. apply plain_primitive. reflexivity.
  - simpl in Hparse.
    destruct data; try (exfalso; exact (throw_makeError_Normal _ _ _ _ _ Hparse)).
    destruct (isNaN n); [exfalso; exact (throw_makeError_Normal _ _ _ _ _ Hparse)|].
    injection Hparse as <-. apply plain_primitive. reflexivity.
  - simpl in Hparse.
    destruct data; try (exfalso; exact (throw_makeError_Normal _ _ _ _ _ Hparse)).
    injection Hparse as <-. apply plain_primitive. reflexivity.
  - apply date_parse_Normal in Hparse as (-> & Hdate & _).
    destruct (ordinary_instanceof_Date _ Hdata Hdate) as [time ->]. apply plain_date.
  - apply Forall_inv in IH. simpl in Hproto.
    apply array_parse_Normal in Hparse
      as [[-> ->]|(items & parsed & -> & -> & Hitems)]; [apply plain_arr; constructor|].
    apply plain_arr. apply ordinary_arr_inv in Hdata.
    induction Hitems as [|item value items parsed (j & Hvalue) _ IHitems]; constructor.
    + exact (IH Hproto _ _ _ (Forall_inv Hdata) Hvalue).
    + exact (IHitems (Forall_inv_tail Hdata)).
  - apply literal_parse_Normal in Hparse as [-> _].
    apply plain_primitive. destruct val; reflexivity.
  - simpl in Hparse, Hproto. apply try_options_Normal_inv in Hparse
      as (before & option & after & -> & _ & Hoption).
    apply forallb_children in Hproto. rewrite Forall_forall in IH, Hproto.
    assert (Hin : option ∈ before ++ option :: after) by set_solver.
    exact (IH option Hin (Hproto option Hin) _ _ _ Hdata Hoption).
  - simpl in Hproto. apply andb_prop in Hproto as [Hnone Hproto].
    apply bool_decide_eq_true in Hnone.
    apply object_parse_Normal in Hparse as (Hobject & values & Hall & ->).
    rewrite built_object_plain_object;
      [|exact Hnone|rewrite length_fmap; exact (Forall2_length _ _ _ Hall)].
    apply plain_obj.
    apply (assign_values plain empty_result (zip shape.*1 values)).
    + intros key value. simpl. rewrite lookup_empty. discriminate.
    + assert (Hvalues : Forall plain values).
      { eapply Forall2_Forall_r; [exact Hall|].
        apply Forall_forall. intros [key schema] Hin value Hvalue. simpl in Hvalue.
        apply field_run_Normal in Hvalue as (val & Hget & Hvalue & _).
        rewrite Forall_forall in IH.
        assert (Hchild : schema ∈ shape.*2).
        { apply list_elem_of_fmap. exists (key, schema). auto. }
        apply (IH schema Hchild) in Hvalue; [exact Hvalue| |].
        - apply (proj1 (forallb_forall _ _) Hproto (key, schema)).
          apply list_elem_of_In. exact Hin.
        - exact (get_ordinary _ _ _ Hdata Hobject Hget). }
      apply Forall_forall. intros [key value] Hin. simpl.
      apply elem_of_zip_r in Hin. rewrite Forall_forall in Hvalues. auto.
  - apply Forall_inv in IH. simpl in Hparse, Hproto.
    destruct data; try (exact (IH Hproto _ _ _ Hdata Hparse)).
    injection Hparse as <-. apply plain_primitive. reflexivity.
  - apply Forall_inv in IH. simpl in Hparse, Hproto.
    destruct data; try (exact (IH Hproto _ _ _ Hdata Hparse)).
    injection Hparse as <-. apply plain_primitive. reflexivity.
Qed.

Lemma throw_makeError_plain_raises_ValidationError {A} p exp rcv value :
  plain value → raises_other (@throw_makeError _ A p exp rcv value) = false.
Proof.
  intros Hplain.
  destruct (@throw_makeError_plain _ A p exp rcv value Hplain) as (text & _ & ->).
  reflexivity.
Qed.

Lemma plain_instanceof_Date value :
  plain value → instanceof_Date value = true → ∃ time, value = VDateObj time.
Proof. intros Hplain. apply ordinary_instanceof_Date, plain_ordinary, Hplain. Qed.

(** On plain data a schema without objects returns or throws a
    [ValidationError]: every value it has to render is plain. *)
Lemma object_free_on_plain s :
  object_free s = true → ∀ p w, plain w → raises_other (_parse s p w) = false.
Proof.
  induction s as [v rs IH] using VType_children_ind. intros Hfree p w Hplain.
  destruct v as [| | | |element|val|options|shape|inner|inner]; simpl in *.
  - destruct w; try reflexivity;
      apply throw_makeError_plain_raises_ValidationError; exact Hplain.
  - destruct w; try (destruct (isNaN n)); try reflexivity;
      apply throw_makeError_plain_raises_ValidationError; exact Hplain.
  - destruct w; try reflexivity;
      apply throw_makeError_plain_raises_ValidationError; exact Hplain.
  - destruct (instanceof_Date w) eqn:Hdate;
      [|apply throw_makeError_plain_raises_ValidationError; exact Hplain].
    destruct (plain_instanceof_Date _ Hplain Hdate) as [time ->]. simpl.
    destruct (isNaN time); [|reflexivity].
    apply throw_makeError_plain_raises_ValidationError; exact Hplain.
  - apply Forall_inv in IH.
    destruct w as [| | | | | | | |[| |]| | |]; try reflexivity;
      try (apply throw_makeError_plain_raises_ValidationError; exact Hplain).
    apply plain_arr_inv in Hplain.
    destruct (map_items _ 0 items) as [parsed|e] eqn:Hitems; simpl; [reflexivity|].
    apply map_items_Throw in Hitems as (j & item & Hj & Hitem). simpl in Hitem.
    rewrite Forall_forall in Hplain.
    specialize (IH Hfree (p ++ [Index j]) item
                  (Hplain item (list_elem_of_lookup_2 _ _ _ Hj))).
    rewrite Hitem in IH. exact IH.
  - destruct (strict_equals w val); [reflexivity|].
    unfold stringify.
    destruct (JSON_stringify_plain (literal_value val)) as [text ->].
    { apply plain_primitive. destruct val; reflexivity. }
    simpl. apply throw_makeError_plain_raises_ValidationError. exact Hplain.
  - destruct (try_options _ options []) as [value|e] eqn:Htry; [reflexivity|].
    apply try_options_Throw_inv in Htry
      as [(errs & _ & ->)|(option & what & Hin & Hthrow & ->)]; [reflexivity|].
    apply forallb_children in Hfree. rewrite Forall_forall in IH, Hfree.
    specialize (IH option Hin (Hfree option Hin) p w Hplain).
    rewrite Hthrow in IH. exact IH.
  - discriminate.
  - apply Forall_inv in IH. destruct w; try reflexivity; apply IH; assumption.
  - apply Forall_inv in IH. destruct w; try reflexivity; apply IH; assumption.
Qed.

Lemma Forall2_rebuilt_same items : Forall2 rebuilt items items.
Proof. induction items; constructor; [apply rebuilt_same|assumption]. Qed.

Lemma rebuilt_arr_inv v items' :
  rebuilt v (VArr items') →
  (∃ items, v = VArr items ∧ Forall2 rebuilt items items')
  ∨ (v = VIntrinsic ArrayPrototype ∧ items' = []).
Proof.
  inversion 1; subst; eauto using Forall2_rebuilt_same.
Qed.

Lemma map_items_raises_ValidationError {A B} (f : nat → A → Completion B) i items :
  raises_ValidationError (map_items f i items) = true →
  ∃ j item, item ∈ items ∧ raises_ValidationError (f j item) = true.
Proof.
  destruct (map_items f i items) as [parsed|[err|what]] eqn:Hitems; try discriminate.
  intros _. apply map_items_Throw in Hitems as (j & item & Hj & Hitem).
  exists (i + j), item. split; [exact (list_elem_of_lookup_2 _ _ _ Hj)|].
  rewrite Hitem. reflexivity.
Qed.

(** A schema without objects that accepts a rebuilt value does not reject
    the value it was rebuilt from. *)
Lemma object_free_accepts_rebuilt s :
  object_free s = true →
  ∀ p p' v w, rebuilt v w →
    returns (_parse s p' w) = true → raises_ValidationError (_parse s p v) = false.
Proof.
  induction s as [variant rs IH] using VType_children_ind.
  intros Hfree p p' v w Hrebuilt Hreturns.
  destruct variant as [| | | |element|val|options|shape|inner|inner]; simpl in *.
  - destruct w; try (rewrite throw_makeError_returns in Hreturns; discriminate).
    inversion Hrebuilt; subst. reflexivity.
  - destruct w; try (rewrite throw_makeError_returns in Hreturns; discriminate).
    destruct (isNaN n) eqn:Hnan;
      [rewrite throw_makeError_returns in Hreturns; discriminate|].
    inversion Hrebuilt as [| x y Hxy | | |]; subst; simpl.
    + rewrite Hnan. reflexivity.
    + destruct (SFeqb_true_isNaN _ _ Hxy) as [-> _]. reflexivity.
  - destruct w; try (rewrite throw_makeError_returns in Hreturns; discriminate).
    inversion Hrebuilt; subst. reflexivity.
  - destruct (instanceof_Date w) eqn:Hdate;
      [|rewrite throw_makeError_returns in Hreturns; discriminate].
    destruct (isNaN_getTime w) as [[]|e] eqn:Htime; simpl in Hreturns;
      [rewrite throw_makeError_returns in Hreturns; discriminate| |discriminate].
    inversion Hrebuilt; subst; try discriminate.
    rewrite Hdate, Htime. reflexivity.
  - apply Forall_inv in IH.
    destruct w as [| | | | | | | |[| |]| |items'|];
      try (rewrite throw_makeError_returns in Hreturns; discriminate).
    + inversion Hrebuilt; subst. reflexivity.
    + apply rebuilt_arr_inv in Hrebuilt as [(items & -> & Hitems)|[-> _]]; [|reflexivity].
      destruct (map_items _ 0 items') as [parsed|e] eqn:Hparsed; simpl in Hreturns;
        [|discriminate].
      apply map_items_Normal_inv in Hparsed.
      destruct (map_items (λ i item, _parse element (p ++ [Index i]) item) 0 items)
        as [parsed0|[err|what]] eqn:Hrun; simpl; try reflexivity.
      exfalso.
      apply map_items_Throw in Hrun as (j & item & Hj & Hitem). simpl in Hitem.
      destruct (Forall2_lookup_l _ _ _ _ _ Hitems Hj) as (item' & Hj' & Hitem').
      destruct (Forall2_lookup_l _ _ _ _ _ Hparsed Hj') as (value & _ & (k & Hvalue)).
      simpl in Hvalue.
      pose proof (IH Hfree (p ++ [Index j]) (p' ++ [Index k]) item item' Hitem') as Hno.
      rewrite Hvalue, Hitem in Hno. specialize (Hno eq_refl). discriminate.
  - destruct (strict_equals w val) eqn:Heq.
    + assert (Hsame : strict_equals v val = true).
      { inversion Hrebuilt as [| x y Hxy | | |]; subst; try exact Heq; try discriminate.
        destruct val; try discriminate. simpl in *.
        rewrite (SFeqb_true_l _ _ _ Hxy). exact Heq. }
      rewrite Hsame. reflexivity.
    + exfalso. unfold stringify in Hreturns.
      destruct (JSON_stringify (literal_value val)); simpl in Hreturns; [|discriminate].
      rewrite throw_makeError_returns in Hreturns. discriminate.
  - destruct (try_options (λ option, _parse option p' w) options []) as [value|e] eqn:Hw;
      [|discriminate].
    apply try_options_Normal_inv in Hw as (before & option & after & -> & _ & Hoption).
    destruct (try_options (λ option, _parse option p v) (before ++ option :: after) [])
      as [value0|[err|what]] eqn:Hv; try reflexivity.
    exfalso.
    apply try_options_Throw_inv in Hv as [(errs & Hall & _)|(o & what & _ & _ & [=])].
    apply forallb_children in Hfree. rewrite Forall_forall in IH, Hfree.
    assert (Hin : option ∈ before ++ option :: after) by set_solver.
    apply list_elem_of_lookup in Hin as (i & Hi).
    pose proof Hi as Hi'. apply list_elem_of_lookup_2 in Hi'.
    destruct (Forall2_lookup_l _ _ _ _ _ Hall Hi) as (err0 & _ & Hthrow).
    pose proof (IH option Hi' (Hfree option Hi') p p' v w Hrebuilt) as Hno.
    rewrite Hoption, Hthrow in Hno. specialize (Hno eq_refl). discriminate.
  - discriminate.
  - apply Forall_inv in IH. destruct v; try reflexivity;
      (destruct w; [inversion Hrebuilt|..]; try (eapply IH; eauto; fail)).
  - apply Forall_inv in IH. destruct v; try reflexivity;
      (destruct w; [|inversion Hrebuilt|..]; try (eapply IH; eauto; fail)).
Qed.

(** A second structural check of what a first one returned returns it
    again. *)
Lemma structural_parse_stable s :
  objects_in_last_option_only s = true →
  keys_distinct s = true →
  declares_no_proto s = true →
  ∀ p p' d w, ordinary d → _parse s p d = Normal w → _parse s p' w = Normal w.
Proof.
  induction s as [v rs IH] using VType_children_ind.
  intros Hclass Hkeys Hproto p p' d w Hd Hparse.
  destruct v as [| | | |element|val|options|shape|inner|inner].
  - simpl in Hparse.
    destruct d; try (exfalso; exact (throw_makeError_Normal _ _ _ _ _ Hparse)).
    injection Hparse as <-. reflexivity.
  - simpl in Hparse.
    destruct d; try (exfalso; exact (throw_makeError_Normal _ _ _ _ _ Hparse)).
    destruct (isNaN n) eqn:Hnan;
      [exfalso; exact (throw_makeError_Normal _ _ _ _ _ Hparse)|].
    injection Hparse as <-. simpl. rewrite Hnan. reflexivity.
  - simpl in Hparse.
    destruct d; try (exfalso; exact (throw_makeError_Normal _ _ _ _ _ Hparse)).
    injection Hparse as <-. reflexivity.
  - apply date_parse_Normal in Hparse as (-> & Hdate & Htime).
    exact (date_parse_accepts rs p' d Hdate Htime).
  - apply Forall_inv in IH. simpl in Hclass, Hkeys, Hproto.
    apply array_parse_Normal in Hparse
      as [[-> ->]|(items & parsed & -> & -> & Hitems)]; [reflexivity|].
    simpl. rewrite map_items_fixed; [reflexivity|].
    apply ordinary_arr_inv in Hd.
    induction Hitems as [|item value items parsed (j & Hvalue) _ IHitems]; constructor.
    + intros j'. exact (IH Hclass Hkeys Hproto _ _ _ _ (Forall_inv Hd) Hvalue).
    + exact (IHitems (Forall_inv_tail Hd)).
  - apply literal_parse_Normal in Hparse as [-> Heq]. simpl.
    rewrite (proj2 (strict_equals_literal_value d val Heq)). reflexivity.
  - simpl in Hparse, Hclass, Hkeys, Hproto. apply try_options_Normal_inv in Hparse
      as (before & option & after & -> & Hbefore & Hoption).
    destruct (objects_last_split _ _ _ Hclass) as [Hfree Hlast].
    apply forallb_children in Hkeys, Hproto. rewrite Forall_forall in IH, Hkeys, Hproto, Hfree.
    assert (Hin : option ∈ before ++ option :: after) by set_solver.
    pose proof (parse_output_rebuilt option (Hproto _ Hin) p d w Hoption) as Hrebuilt.
    pose proof (parse_output_plain option (Hproto _ Hin) p d w Hd Hoption) as Hplain.
    simpl. apply try_options_first_success.
    + rewrite Forall_forall in Hbefore. apply Forall_forall. intros o Ho.
      pose proof (object_free_accepts_rebuilt o (Hfree o Ho) p p' d w Hrebuilt) as Haccepts.
      pose proof (object_free_on_plain o (Hfree o Ho) p' w Hplain) as Hother.
      specialize (Hbefore o Ho).
      destruct (_parse o p' w) as [value|[err|what]]; simpl in *; try reflexivity.
      * rewrite Hbefore in Haccepts. specialize (Haccepts eq_refl). discriminate.
      * discriminate.
    + exact (IH option Hin Hlast (Hkeys _ Hin) (Hproto _ Hin) p p' d w Hd Hoption).
  - simpl in Hclass, Hkeys, Hproto.
    apply andb_prop in Hkeys as [Hnodup Hkeys]. apply bool_decide_eq_true in Hnodup.
    apply andb_prop in Hproto as [Hnone Hproto]. apply bool_decide_eq_true in Hnone.
    apply object_parse_Normal in Hparse as (Hobject & values & Hall & ->).
    rewrite object_parse_unfold.
    change (is_object (built_object (zip shape.*1 values))) with true. cbv iota.
    rewrite (parse_fields_all_Normal _ shape empty_result values); [reflexivity|].
    apply Forall2_same_length_lookup_2; [exact (Forall2_length _ _ _ Hall)|].
    intros i [key schema] value Hfield Hvalue. simpl.
    pose proof (Forall2_lookup_lr _ _ _ _ _ _ Hall Hfield Hvalue) as Hrun. simpl in Hrun.
    apply field_run_Normal in Hrun as (val & Hval & Hrun & Hrefs).
    assert (Hkey : shape.*1 !! i = Some key).
    { rewrite list_lookup_fmap, Hfield. reflexivity. }
    assert (Hne : key ≠ "__proto__").
    { intros ->. apply Hnone. exact (list_elem_of_lookup_2 _ _ _ Hkey). }
    assert (Hget : get (built_object (zip shape.*1 values)) key = Normal value).
    { unfold get, built_object. simpl.
      rewrite (assign_lookup empty_result shape.*1 values i key value Hnodup Hne Hkey Hvalue).
      reflexivity. }
    unfold field_run. rewrite Hget. simpl.
    assert (Hin : schema ∈ shape.*2).
    { apply list_elem_of_fmap. exists (key, schema). split; [reflexivity|].
      eapply list_elem_of_lookup_2; exact Hfield. }
    assert (Hin' : In (key, schema) shape).
    { apply list_elem_of_In. eapply list_elem_of_lookup_2; exact Hfield. }
    rewrite Forall_forall in IH.
    rewrite (IH schema Hin
               (proj1 (forallb_forall _ _) Hclass _ Hin')
               (proj1 (forallb_forall _ _) Hkeys _ Hin')
               (proj1 (forallb_forall _ _) Hproto _ Hin')
               _ (p' ++ [Key key]) _ value (get_ordinary _ _ _ Hd Hobject Hval) Hrun).
    unfold withRefinements. simpl.
    rewrite (runRefinements_Normal_path _ _ _ (p' ++ [Key key]) Hrefs). reflexivity.
  - apply Forall_inv in IH. simpl in Hparse, Hclass, Hkeys, Hproto.
    destruct d;
      try (pose proof (IH Hclass Hkeys Hproto _ p' _ _ Hd Hparse) as Hagain;
           simpl; destruct w; [reflexivity|exact Hagain..]).
    injection Hparse as <-. reflexivity.
  - apply Forall_inv in IH. simpl in Hparse, Hclass, Hkeys, Hproto.
    destruct d;
      try (pose proof (IH Hclass Hkeys Hproto _ p' _ _ Hd Hparse) as Hagain;
           simpl; destruct w; [exact Hagain|reflexivity|exact Hagain..]).
    injection Hparse as <-. reflexivity.
Qed.

End idempotence.

(** C9 (as stated, refuted).  The union of [object({c: number().optional()})]
    and [object({a: number()})] parses [{a: 1, c: "x"}] by its second
    member, which prunes [c] and returns [{a: 1}]; parsing [{a: 1}] again
    is answered by the first member, now satisfied, with
    [{c: undefined}]. *)
Lemma parse_not_idempotent_on_union_of_objects :
  @parse plain_host first_match_union
    (plain_object (<["a" := int 1]> (<["c" := VStr "x"]> ∅)))
  = Normal (plain_object {["a" := int 1]})
  ∧ @parse plain_host first_match_union (plain_object {["a" := int 1]})
    = Normal (plain_object {["c" := VUndefined]})
  ∧ plain_object {["c" := VUndefined]} ≠ plain_object {["a" := int 1]}.
Proof.
  split; [vm_compute; reflexivity|]. split; [vm_compute; reflexivity|].
  intros Heq. apply (f_equal (λ value, @get plain_host value "a")) in Heq.
  vm_compute in Heq. discriminate.
Qed.

(** The two provisos of the amended statement are needed.  A shape that
    declares [__proto__] stores nothing under that name, so
    [object({["__proto__"]: string()})] returns [{}] for
    [{"__proto__": "x"}] and then rejects [{}], in which the name reads as
    [Object.prototype]. *)
Lemma parse_not_idempotent_when_proto_is_declared :
  @parse plain_host (validator.object [("__proto__", validator.string)])
    (plain_object {["__proto__" := VStr "x"]})
  = Normal (plain_object ∅)
  ∧ raises_ValidationError
      (@parse plain_host (validator.object [("__proto__", validator.string)])
         (plain_object ∅))
    = true.
Proof. split; vm_compute; reflexivity. Qed.

(** And an object that inherits from [Date.prototype] with a [getTime] of
    its own passes for a date, while [JSON.stringify] throws on it: had
    inside an object whose [toJSON] hides it, it is laid bare by the
    pruning, and the second parse throws a [TypeError] where the first
    reported a mismatch and went on to the next option. *)
Lemma parse_not_idempotent_on_a_date_look_alike :
  let date_like := VObj {["getTime" := VFunction "getTime"]} (VIntrinsic DatePrototype) in
  let schema :=
    validator.union [validator.string; validator.object [("a", validator.date)]] in
  @parse plain_host schema
    (plain_object (<["a" := date_like]> (<["toJSON" := VFunction "toJSON"]> ∅)))
  = Normal (plain_object {["a" := date_like]})
  ∧ @parse plain_host schema (plain_object {["a" := date_like]})
    = Throw (ThrownOther "TypeError")
  ∧ objects_in_last_option_only schema = true
  ∧ keys_distinct schema = true
  ∧ declares_no_proto schema = true.
Proof. repeat split; vm_compute; reflexivity. Qed.

(** C9 (amended).  Parsing is idempotent on every schema in which an
    option of a union contains an object schema only if it is the last
    option of that union, and in which no shape declares the name
    [__proto__] (the names of each shape being distinct, as the property
    names of an object are), for every input that is ordinary data
    (primitives, functions, dates, arrays, and objects whose prototype is
    [Object.prototype], [null] or another such object): whenever
    [S.parse(v)] returns [w], [S.parse(w)] returns [w] again. *)
Theorem parse_idempotent_when_objects_come_last `{Host} (s : VType) (v w : Value) :
  objects_in_last_option_only s = true →
  keys_distinct s = true →
  declares_no_proto s = true →
  ordinary v →
  parse s v = Normal w →
  parse s w = Normal w.
Proof.
  intros Hclass Hkeys Hproto Hv Hparse. unfold parse, _parseWithRefinements in *.
  apply withRefinements_Normal in Hparse as [Hparse Hrefs].
  rewrite (structural_parse_stable s Hclass Hkeys Hproto [] [] v w Hv Hparse).
  unfold withRefinements. simpl. rewrite Hrefs. reflexivity.
Qed.

(** ** The general statements at concrete inputs *)

Lemma plain_object_empty : plain (plain_object ∅).
Proof. apply plain_obj. intros key value Hkey. rewrite lookup_empty in Hkey. discriminate. Qed.

Lemma plain_object_insert key value props :
  plain value → plain (plain_object props) → plain (plain_object (<[key := value]> props)).
Proof.
  intros Hvalue Hprops. inversion Hprops as [? Hprimitive| | |? Hall]; [discriminate|subst].
  apply plain_obj. intros key' value'. rewrite lookup_insert.
  destruct (decide (key = key')); [intros [= <-]; exact Hvalue|apply Hall].
Qed.

Lemma plain_int z : plain (int z).
Proof. apply plain_primitive. reflexivity. Qed.

Lemma plain_string s : plain (VStr s).
Proof. apply plain_primitive. reflexivity. Qed.

Lemma refinements_run_in_order_witness :
  (refinements validator.string = []
   ∧ @_parse plain_host validator.string [] (VStr "x") = Normal (VStr "x")
   ∧ always_false (VStr "x") = Normal false)
  ∧ @parse plain_host
      (refine (refine validator.string always_false "A") always_throws "B") (VStr "x")
    = Throw (ThrownValidation
        {| issues := [ {| path := []; message := "A";
                          expected := "refinement to pass";
                          received := typeof (VStr "x") |} ] |}).
Proof.
  split; [repeat split|].
  apply (proj2 (proj2 (proj2 (@refinements_run_in_order_and_stop_at_first_failure plain_host)))
           validator.string (VStr "x") (VStr "x") always_false always_throws);
    reflexivity.
Defined.

Lemma union_concatenates_member_issues_witness :
  Forall2 (λ option err, @_parse plain_host option [] VNull = Throw (ThrownValidation err))
    [validator.string; validator.number]
    [structural_error [] "string" "object" "null";
     structural_error [] "number" "object" "null"]
  ∧ @parse plain_host (Schema (VUnion [validator.string; validator.number]) []) VNull
    = Throw (ThrownValidation
        {| issues := concat (map issues
             [structural_error [] "string" "object" "null";
              structural_error [] "number" "object" "null"]) |}).
Proof.
  assert (Hmembers :
    Forall2 (λ option err, @_parse plain_host option [] VNull = Throw (ThrownValidation err))
      [validator.string; validator.number]
      [structural_error [] "string" "object" "null";
       structural_error [] "number" "object" "null"])
    by (repeat constructor).
  split; [exact Hmembers|].
  exact (proj1 (proj1 (proj2 (@union_concatenates_member_issues plain_host))
                  _ [] _ _ Hmembers)).
Defined.

Lemma array_is_fail_fast_witness :
  (∀ j x, [int 1] !! j = Some x → returns (@_parse plain_host validator.number [Index j] x) = true)
  ∧ @_parse plain_host validator.number [Index (length [int 1])] (VStr "x")
    = Throw (ThrownValidation
        (structural_error [Index 1] "number" "string" (plain_text (VStr "x"))))
  ∧ @parse plain_host (validator.array validator.number) (VArr ([int 1] ++ VStr "x" :: [int 2]))
    = Throw (ThrownValidation
        (structural_error [Index 1] "number" "string" (plain_text (VStr "x")))).
Proof.
  assert (Hbefore : ∀ j x, [int 1] !! j = Some x →
            returns (@_parse plain_host validator.number [Index j] x) = true).
  { intros [|j] x Hx; [|discriminate]. injection Hx as <-. reflexivity. }
  split; [exact Hbefore|]. split; [reflexivity|].
  apply (proj1 (proj2 (@array_is_fail_fast plain_host))
           validator.number [] [int 1] (VStr "x") [int 2]);
    [exact Hbefore|reflexivity].
Defined.


Lemma parse_idempotent_when_objects_come_last_witness :
  (objects_in_last_option_only string_or_record = true
   ∧ keys_distinct string_or_record = true
   ∧ declares_no_proto string_or_record = true
   ∧ ordinary (plain_object (<["a" := int 1]> (<["c" := VStr "x"]> ∅)))
   ∧ @parse plain_host string_or_record
       (plain_object (<["a" := int 1]> (<["c" := VStr "x"]> ∅)))
     = Normal (plain_object (<["a" := int 1]> ∅)))
  ∧ @parse plain_host string_or_record (plain_object (<["a" := int 1]> ∅))
    = Normal (plain_object (<["a" := int 1]> ∅)).
Proof.
  assert (Hparse :
    @parse plain_host string_or_record
      (plain_object (<["a" := int 1]> (<["c" := VStr "x"]> ∅)))
    = Normal (plain_object (<["a" := int 1]> ∅)))
    by (vm_compute; reflexivity).
  assert (Hkeys : keys_distinct string_or_record = true) by (vm_compute; reflexivity).
  assert (Hproto : declares_no_proto string_or_record = true) by (vm_compute; reflexivity).
  assert (Hinput : ordinary (plain_object (<["a" := int 1]> (<["c" := VStr "x"]> ∅)))).
  { apply plain_ordinary.
    repeat (apply plain_object_insert; [first [apply plain_int|apply plain_string]|]).
    apply plain_object_empty. }
  split; [split; [reflexivity|split; [exact Hkeys|split; [exact Hproto|split;
                    [exact Hinput|exact Hparse]]]]|].
  exact (@parse_idempotent_when_objects_come_last plain_host string_or_record
           (plain_object (<["a" := int 1]> (<["c" := VStr "x"]> ∅)))
           (plain_object (<["a" := int 1]> ∅)) eq_refl Hkeys Hproto Hinput Hparse).
Defined.


(** * Further properties of the engine *)

Section loops.
Context `{Host}.

Lemma runRefinements_app rs rs' value p :
  runRefinements (rs ++ rs') value p
  = (_ ← runRefinements rs value p; runRefinements rs' value p).
Proof.
  induction rs as [|r rs IH]; simpl; [reflexivity|].
  destruct (check r value) as [[]|e]; simpl; [exact IH|reflexivity..].
Qed.

Lemma agree_refl {A} (c : Completion A) : agree c c.
Proof. destruct c as [a|[err|what]]; simpl; auto. Qed.

Lemma agree_bind {A B} (c c' : Completion A) (k k' : A → Completion B) :
  agree c c' → (∀ a, agree (k a) (k' a)) → agree (c ≫= k) (c' ≫= k').
Proof.
  intros Hc Hk. destruct c as [a|[err|what]], c' as [a'|[err'|what']];
    simpl in *; try contradiction; try exact I; [subst a'; apply Hk|exact Hc].
Qed.

Lemma agree_Normal {A} (c c' : Completion A) a :
  agree c c' → c = Normal a → c' = Normal a.
Proof.
  intros Hc ->. destruct c' as [a'|[err'|what']]; simpl in *; try contradiction.
  congruence.
Qed.

Lemma agree_sym {A} (c c' : Completion A) : agree c c' → agree c' c.
Proof.
  destruct c as [a|[err|what]], c' as [a'|[err'|what']]; simpl; auto.
Qed.

Lemma runRefinements_agree rs value p p' :
  agree (runRefinements rs value p) (runRefinements rs value p').
Proof.
  induction rs as [|r rs IH]; simpl; [reflexivity|].
  destruct (check r value) as [[]|[err|what]]; simpl; auto.
Qed.

Lemma map_items_agree {A B} (f f' : nat → A → Completion B) i items :
  (∀ j item, agree (f j item) (f' j item)) →
  agree (map_items f i items) (map_items f' i items).
Proof.
  intros Hf. revert i. induction items as [|item items IH]; intros i; simpl; [reflexivity|].
  apply agree_bind; [apply Hf|]. intros v.
  apply agree_bind; [apply IH|]. intros vs. reflexivity.
Qed.

Lemma try_options_agree {T} (f f' : T → Completion Value) options collected collected' :
  Forall (λ option, agree (f option) (f' option)) options →
  agree (try_options f options collected) (try_options f' options collected').
Proof.
  intros Hall. revert collected collected'.
  induction Hall as [|option options Hoption _ IH]; intros collected collected'; simpl.
  - exact I.
  - destruct (f option) as [v|[err|what]], (f' option) as [v'|[err'|what']];
      simpl in *; try contradiction; auto.
Qed.

Lemma parse_fields_agree {T} (f f' : string → T → Completion Value) shape result :
  Forall (λ field, agree (f field.1 field.2) (f' field.1 field.2)) shape →
  agree (parse_fields f shape result) (parse_fields f' shape result).
Proof.
  intros Hall. revert result.
  induction Hall as [|[key schema] shape Hfield _ IH]; intros result; simpl; [reflexivity|].
  apply agree_bind; [exact Hfield|]. intros v. apply IH.
Qed.

(** The path given to a structural check shows in the issues only. *)
Lemma _parse_agree s : ∀ p p' data, agree (_parse s p data) (_parse s p' data).
Proof.
  induction s as [v rs IH] using VType_children_ind. intros p p' data.
  destruct v as [| | | |element|val|options|shape|inner|inner].
  - simpl. destruct data; try apply throw_makeError_agree. reflexivity.
  - simpl. destruct data; try apply throw_makeError_agree.
    destruct (isNaN n); [apply throw_makeError_agree|reflexivity].
  - simpl. destruct data; try apply throw_makeError_agree. reflexivity.
  - simpl. destruct (instanceof_Date data); [|apply throw_makeError_agree].
    destruct (isNaN_getTime data) as [[]|[err|what]]; simpl;
      [apply throw_makeError_agree|reflexivity|exact I|reflexivity].
  - apply Forall_inv in IH. simpl.
    destruct data as [| | | | | | | |[| |]| | |]; try apply throw_makeError_agree;
      [reflexivity|].
    apply agree_bind; [|intros; reflexivity].
    apply map_items_agree. intros j item. apply IH.
  - simpl. destruct (strict_equals data val); [reflexivity|].
    unfold stringify. destruct (JSON_stringify (literal_value val)); simpl;
      [apply throw_makeError_agree|reflexivity].
  - simpl. apply try_options_agree. eapply Forall_impl; [exact IH|].
    intros option Hoption. apply Hoption.
  - rewrite !object_parse_unfold. destruct (is_object data); [|apply throw_makeError_agree].
    apply parse_fields_agree. apply Forall_forall. intros [key schema] Hin. simpl.
    rewrite Forall_forall in IH. unfold field_run.
    apply agree_bind; [apply agree_refl|]. intros val.
    unfold withRefinements. apply agree_bind.
    + apply IH. apply list_elem_of_fmap. exists (key, schema). auto.
    + intros value. apply agree_bind; [apply runRefinements_agree|]. intros; reflexivity.
  - apply Forall_inv in IH. simpl. destruct data; try apply IH. reflexivity.
  - apply Forall_inv in IH. simpl. destruct data; try apply IH. reflexivity.
Qed.

Lemma _parseWithRefinements_agree s p p' data :
  agree (_parseWithRefinements s p data) (_parseWithRefinements s p' data).
Proof.
  unfold _parseWithRefinements, withRefinements.
  apply agree_bind; [apply _parse_agree|]. intros value.
  apply agree_bind; [apply runRefinements_agree|]. intros; reflexivity.
Qed.

End loops.

Section thrown.
Context `{Host}.

Lemma checks_satisfy_inv Q v rs :
  checks_satisfy Q (Schema v rs) →
  Forall (λ r, ∀ value, Q (check r value)) rs ∧ Forall (checks_satisfy Q) (children v).
Proof. inversion 1; auto. Qed.

Lemma checks_satisfy_refinements Q s :
  checks_satisfy Q s → Forall (λ r, ∀ value, Q (check r value)) (refinements s).
Proof. destruct s as [v rs]. intros Hs. exact (proj1 (checks_satisfy_inv Q v rs Hs)). Qed.





End thrown.

(** An invariant of the issues thrown from a call at a path: it holds of
    one issue located at that path, it passes from a child's path to the
    parent's, and a union with an accepted option list keeps it. *)
Section issue_invariant.
Context `{Host}.
Variable Good : Path → list ValidationIssue → Prop.
Variable ok : list VType → bool.
Hypothesis Good_single : ∀ p issue, path issue = p → Good p [issue].
Hypothesis Good_lift : ∀ p seg found, Good (p ++ [seg]) found → Good p found.
Hypothesis Good_union : ∀ p options errs,
  ok options = true → length errs = length options →
  Forall (λ err, Good p (issues err)) errs → Good p (concat (map issues errs)).




End issue_invariant.

Section more_loops.
Context `{Host}.


Lemma map_items_all_Normal {A B} (f : nat → A → Completion B) i items parsed :
  Forall2 (λ item v, ∀ j, f j item = Normal v) items parsed →
  map_items f i items = Normal parsed.
Proof.
  intros Hall. revert i. induction Hall as [|item v items parsed Hitem _ IH]; intros i; simpl.
  - reflexivity.
  - rewrite Hitem. simpl. rewrite IH. reflexivity.
Qed.

Lemma try_options_first_decisive {T} (f : T → Completion Value) before option after collected :
  Forall (λ o, raises_ValidationError (f o) = true) before →
  raises_ValidationError (f option) = false →
  try_options f (before ++ option :: after) collected = f option.
Proof.
  intros Hbefore Hoption. revert collected.
  induction Hbefore as [|o before Ho _ IH]; intros collected; simpl.
  - destruct (f option) as [v|[err|what]]; [reflexivity|discriminate|reflexivity].
  - destruct (f o) as [v|[err|what]]; try discriminate. apply IH.
Qed.

Lemma parse_fields_fail_fast {T} (f : string → T → Completion Value)
    before key schema after result e :
  Forall (λ field, returns (f field.1 field.2) = true) before →
  f key schema = Throw e →
  parse_fields f (before ++ (key, schema) :: after) result = Throw e.
Proof.
  intros Hbefore Hfield. revert result.
  induction Hbefore as [|[key' schema'] before Hreturns _ IH]; intros result; simpl.
  - rewrite Hfield. reflexivity.
  - simpl in Hreturns. destruct (f key' schema') as [v|e']; [|discriminate]. simpl. apply IH.
Qed.

Lemma runRefinements_raises_nothing_else rs value p :
  Forall (λ r, ∀ value, raises_other (check r value) = false) rs →
  raises_other (runRefinements rs value p) = false.
Proof.
  induction 1 as [|r rs Hr _ IH]; simpl; [reflexivity|].
  specialize (Hr value). destruct (check r value) as [[]|[err|what]]; simpl in *; auto.
Qed.

Lemma withRefinements_raises_nothing_else rs p c :
  Forall (λ r, ∀ value, raises_other (check r value) = false) rs →
  raises_other c = false →
  raises_other (withRefinements rs p c) = false.
Proof.
  intros Hrs Hc. unfold withRefinements. destruct c as [value|e]; simpl; [|exact Hc].
  pose proof (runRefinements_raises_nothing_else rs value p Hrs) as Hrun.
  destruct (runRefinements rs value p) as [[]|e]; simpl in *; auto.
Qed.

(** *** Plain data and what is read from it *)

Lemma throw_makeError_plain_or_method {A} p exp rcv value :
  plain_or_method value → raises_other (@throw_makeError _ A p exp rcv value) = false.
Proof.
  intros [Hplain|[f ->]]; [exact (throw_makeError_plain_raises_ValidationError _ _ _ _ Hplain)|].
  destruct (JSON_stringify_function f) as [text Htext].
  destruct (@throw_makeError_cases _ A p exp rcv (VFunction f))
    as [(text' & _ & ->)|[Hnone _]]; [reflexivity|congruence].
Qed.

Lemma resolve_in_Object_prototype_cases key :
  key ≠ "__proto__" →
  (∃ f, resolve_in_Object_prototype key = DataProperty (VFunction f))
  ∨ resolve_in_Object_prototype key = Absent.
Proof.
  intros Hkey. unfold resolve_in_Object_prototype. rewrite decide_False by exact Hkey.
  destruct (intrinsic_properties ObjectPrototype !! key) as [v|] eqn:Hown; [|auto].
  destruct (intrinsic_properties_methods _ _ _ Hown) as [f ->]. eauto.
Qed.

Lemma resolve_in_prototype_cases which key :
  key ≠ "__proto__" →
  (∃ value, resolve_in_prototype which key = DataProperty value ∧ plain_or_method value)
  ∨ resolve_in_prototype which key = Absent.
Proof.
  intros Hkey.
  assert (Hobject :
    (∃ value, resolve_in_Object_prototype key = DataProperty value ∧ plain_or_method value)
    ∨ resolve_in_Object_prototype key = Absent).
  { destruct (resolve_in_Object_prototype_cases key Hkey) as [[f Hf]|Habsent]; [|auto].
    left. exists (VFunction f). split; [exact Hf|right; eauto]. }
  destruct (resolve_in_prototype which key) as [value| | |] eqn:Hresolve.
  - left. exists value. split; [reflexivity|].
    apply resolve_in_prototype_value in Hresolve as [[f ->]|[n ->]];
      [right; eauto|left; apply plain_primitive; reflexivity].
  - exfalso. destruct which; simpl in Hresolve.
    + destruct Hobject as [(v & Hv & _)|Habsent]; congruence.
    + destruct ((array_properties [] ∪ intrinsic_properties ArrayPrototype) !! key);
        [discriminate|]. destruct Hobject as [(v & Hv & _)|Habsent]; congruence.
    + destruct (intrinsic_properties DatePrototype !! key); [discriminate|].
      destruct Hobject as [(v & Hv & _)|Habsent]; congruence.
  - exfalso. exact (resolve_in_prototype_no_throw _ _ Hresolve).
  - auto.
Qed.

Lemma get_of_resolution obj key :
  (∃ value, resolve obj key = DataProperty value ∧ plain_or_method value)
  ∨ resolve obj key = Absent →
  ∃ val, get obj key = Normal val ∧ plain_or_method val.
Proof.
  unfold get. intros [(value & -> & Hvalue)| ->]; [eauto|].
  exists VUndefined. split; [reflexivity|]. left. apply plain_primitive. reflexivity.
Qed.

(** Reading a name other than [__proto__] from plain data gives plain
    data or an inherited method. *)
Lemma get_plain obj key :
  plain obj → is_object obj = true → key ≠ "__proto__" →
  ∃ val, get obj key = Normal val ∧ plain_or_method val.
Proof.
  intros Hplain Hobject Hkey. apply get_of_resolution.
  destruct Hplain as [v Hprimitive|time|items Hitems|props Hprops].
  - destruct v; discriminate.
  - exact (resolve_in_prototype_cases DatePrototype key Hkey).
  - simpl. destruct (array_properties items !! key) as [v|] eqn:Hown.
    + left. exists v. split; [reflexivity|]. left.
      apply array_properties_lookup in Hown as [Hin|[n ->]];
        [|apply plain_primitive; reflexivity].
      rewrite Forall_forall in Hitems. exact (Hitems _ Hin).
    + exact (resolve_in_prototype_cases ArrayPrototype key Hkey).
  - simpl. destruct (props !! key) as [v|] eqn:Hown.
    + left. exists v. split; [reflexivity|]. left. exact (Hprops _ _ Hown).
    + exact (resolve_in_prototype_cases ObjectPrototype key Hkey).
Qed.

(** On plain data, with predicates that throw nothing but
    [ValidationError]s and no [__proto__] among the declared names, a
    check throws nothing but [ValidationError]s. *)
Lemma _parse_raises_nothing_else s :
  checks_raise_nothing_else s → declares_no_proto s = true →
  ∀ p data, plain_or_method data → raises_other (_parse s p data) = false.
Proof.
  induction s as [v rs IH] using VType_children_ind.
  intros Hchecks Hproto p data Hdata. apply checks_satisfy_inv in Hchecks as [_ Hchecks].
  destruct v as [| | | |element|val|options|shape|inner|inner].
  - simpl. destruct data; try reflexivity;
      apply throw_makeError_plain_or_method; exact Hdata.
  - simpl. destruct data; try (destruct (isNaN n)); try reflexivity;
      apply throw_makeError_plain_or_method; exact Hdata.
  - simpl. destruct data; try reflexivity;
      apply throw_makeError_plain_or_method; exact Hdata.
  - simpl. destruct (instanceof_Date data) eqn:Hdate;
      [|apply throw_makeError_plain_or_method; exact Hdata].
    assert (Htime : ∃ time, data = VDateObj time).
    { destruct Hdata as [Hplain|[f ->]]; [|discriminate].
      exact (plain_instanceof_Date _ Hplain Hdate). }
    destruct Htime as [time ->]. simpl. destruct (isNaN time); [|reflexivity].
    apply throw_makeError_plain_or_method; exact Hdata.
  - apply Forall_inv in IH, Hchecks. simpl in Hproto. simpl.
    destruct data as [| | | | | | | |[| |]| | |]; try reflexivity;
      try (apply throw_makeError_plain_or_method; exact Hdata).
    assert (Hitems : Forall plain items).
    { destruct Hdata as [Hplain|[f [=]]]. exact (plain_arr_inv _ Hplain). }
    destruct (map_items _ 0 items) as [parsed|e] eqn:Hrun; simpl; [reflexivity|].
    apply map_items_Throw in Hrun as (j & item & Hj & Hitem). simpl in Hitem.
    rewrite Forall_forall in Hitems.
    specialize (IH Hchecks Hproto (p ++ [Index j]) item
                  (or_introl (Hitems item (list_elem_of_lookup_2 _ _ _ Hj)))).
    rewrite Hitem in IH. exact IH.
  - simpl. destruct (strict_equals data val); [reflexivity|].
    unfold stringify.
    destruct (JSON_stringify_plain (literal_value val)) as [text ->].
    { apply plain_primitive. destruct val; reflexivity. }
    simpl. apply throw_makeError_plain_or_method. exact Hdata.
  - simpl in Hproto, Hchecks. simpl.
    destruct (try_options _ options []) as [value|e] eqn:Htry; [reflexivity|].
    apply try_options_Throw_inv in Htry
      as [(errs & _ & ->)|(option & what & Hin & Hthrow & ->)]; [reflexivity|].
    apply forallb_children in Hproto. rewrite Forall_forall in IH, Hchecks, Hproto.
    specialize (IH option Hin (Hchecks option Hin) (Hproto option Hin) p data Hdata).
    rewrite Hthrow in IH. exact IH.
  - rewrite object_parse_unfold. simpl in Hproto, Hchecks.
    apply andb_prop in Hproto as [Hnone Hproto]. apply bool_decide_eq_true in Hnone.
    destruct (is_object data) eqn:Hobject;
      [|apply throw_makeError_plain_or_method; exact Hdata].
    assert (Hplain : plain data) by (destruct Hdata as [Hplain|[f ->]]; [exact Hplain|discriminate]).
    destruct (parse_fields _ shape empty_result) as [out|e] eqn:Hrun; [reflexivity|].
    apply parse_fields_Throw in Hrun as (key & schema & Hin & Hfield).
    assert (Hchild : schema ∈ shape.*2).
    { apply list_elem_of_fmap. exists (key, schema). auto. }
    assert (Hkey : key ≠ "__proto__").
    { intros ->. apply Hnone. apply list_elem_of_fmap. exists ("__proto__", schema). auto. }
    destruct (get_plain data key Hplain Hobject Hkey) as (val & Hget & Hval).
    unfold field_run in Hfield. rewrite Hget in Hfield. simpl in Hfield.
    rewrite Forall_forall in IH, Hchecks.
    pose proof (withRefinements_raises_nothing_else (refinements schema) (p ++ [Key key])
                  (_parse schema (p ++ [Key key]) val)
                  (checks_satisfy_refinements _ _ (Hchecks schema Hchild))
                  (IH schema Hchild (Hchecks schema Hchild)
                     (proj1 (forallb_forall _ _) Hproto (key, schema)
                        (proj1 (list_elem_of_In _ _) Hin)) _ _ Hval)) as Hquiet.
    rewrite Hfield in Hquiet. exact Hquiet.
  - apply Forall_inv in IH, Hchecks. simpl in Hproto. simpl.
    destruct data; try reflexivity; apply IH; assumption.
  - apply Forall_inv in IH, Hchecks. simpl in Hproto. simpl.
    destruct data; try reflexivity; apply IH; assumption.
Qed.

(** *** What a schema without objects returns *)

Lemma object_free_output s :
  object_free s = true →
  ∀ p data w, _parse s p data = Normal w →
    similar data w ∧ (literal_free s = true → kept data w).
Proof.
  induction s as [v rs IH] using VType_children_ind. intros Hfree p data w Hparse.
  destruct v as [| | | |element|val|options|shape|inner|inner].
  - simpl in Hparse.
    destruct data; try (exfalso; exact (throw_makeError_Normal _ _ _ _ _ Hparse)).
    injection Hparse as <-. split; [apply similar_refl|intros _; apply kept_same].
  - simpl in Hparse.
    destruct data; try (exfalso; exact (throw_makeError_Normal _ _ _ _ _ Hparse)).
    destruct (isNaN n); [exfalso; exact (throw_makeError_Normal _ _ _ _ _ Hparse)|].
    injection Hparse as <-. split; [apply similar_refl|intros _; apply kept_same].
  - simpl in Hparse.
    destruct data; try (exfalso; exact (throw_makeError_Normal _ _ _ _ _ Hparse)).
    injection Hparse as <-. split; [apply similar_refl|intros _; apply kept_same].
  - apply date_parse_Normal in Hparse as (-> & _ & _).
    split; [apply similar_refl|intros _; apply kept_same].
  - apply Forall_inv in IH. simpl in Hfree.
    apply array_parse_Normal in Hparse
      as [[-> ->]|(items & parsed & -> & -> & Hitems)];
      [split; [apply similar_array_prototype|intros _; apply kept_array_prototype]|].
    assert (Hall : Forall2 (λ item value,
                      similar item value ∧ (literal_free element = true → kept item value))
                     items parsed).
    { eapply Forall2_impl; [exact Hitems|]. intros item value (j & Hvalue).
      exact (IH Hfree _ _ _ Hvalue). }
    split.
    + apply similar_arr. eapply Forall2_impl; [exact Hall|]. intros item value [Hs _]. exact Hs.
    + simpl. intros Hliteral. apply kept_arr. eapply Forall2_impl; [exact Hall|].
      intros item value [_ Hk]. exact (Hk Hliteral).
  - apply literal_parse_Normal in Hparse as [-> Heq].
    split; [exact (proj1 (strict_equals_literal_value _ _ Heq))|discriminate].
  - simpl in Hparse, Hfree. apply try_options_Normal_inv in Hparse
      as (before & option & after & -> & _ & Hoption).
    apply forallb_children in Hfree. rewrite Forall_forall in IH, Hfree.
    assert (Hin : option ∈ before ++ option :: after) by set_solver.
    destruct (IH option Hin (Hfree option Hin) _ _ _ Hoption) as [Hs Hk].
    split; [exact Hs|]. simpl. intros Hliteral. apply Hk.
    apply forallb_children in Hliteral. rewrite Forall_forall in Hliteral.
    exact (Hliteral option Hin).
  - discriminate.
  - apply Forall_inv in IH. simpl in Hparse, Hfree.
    destruct data; try (exact (IH Hfree _ _ _ Hparse)).
    injection Hparse as <-. split; [apply similar_refl|intros _; apply kept_same].
  - apply Forall_inv in IH. simpl in Hparse, Hfree.
    destruct data; try (exact (IH Hfree _ _ _ Hparse)).
    injection Hparse as <-. split; [apply similar_refl|intros _; apply kept_same].
Qed.

(** Plain data that was kept is the same data. *)
Lemma kept_plain data w : kept data w → plain data → w = data.
Proof.
  revert data w. fix IH 3. intros data w [value|items items' Hitems|] Hplain.
  - reflexivity.
  - apply plain_arr_inv in Hplain. f_equal.
    induction Hitems as [|item item' items items' Hitem _ IHitems]; [reflexivity|].
    rewrite (IH item item' Hitem (Forall_inv Hplain)).
    rewrite (IHitems (Forall_inv_tail Hplain)). reflexivity.
  - inversion Hplain; discriminate.
Qed.

Lemma runRefinements_Normal_iff rs value p :
  runRefinements rs value p = Normal tt ↔ Forall (λ r, check r value = Normal true) rs.
Proof.
  induction rs as [|r rs IH]; simpl.
  - split; [constructor|reflexivity].
  - destruct (check r value) as [[]|e] eqn:Hr; simpl.
    + rewrite IH. split; [intros Hrs; constructor; assumption|].
      intros Hall. exact (Forall_inv_tail Hall).
    + split; [discriminate|]. intros Hall. apply Forall_inv in Hall. congruence.
    + split; [discriminate|]. intros Hall. apply Forall_inv in Hall. congruence.
Qed.

End more_loops.

(** ** Paths and issues *)

(** X1. The path handed to a schema shows in the issues only: whether a
    value validates, the validated value, and anything thrown that is not
    a [ValidationError] are the same at every path, so a schema nested in
    a composite accepts exactly what it accepts on its own. *)
Theorem parse_outcome_is_independent_of_path `{Host} (s : VType) (p : Path) (data : Value) :
  (∀ w, _parse s p data = Normal w ↔ _parse s [] data = Normal w)
  ∧ (∀ w, _parseWithRefinements s p data = Normal w ↔ parse s data = Normal w)
  ∧ raises_ValidationError (_parseWithRefinements s p data)
    = raises_ValidationError (parse s data)
  ∧ (∀ what, _parseWithRefinements s p data = Throw (ThrownOther what)
             ↔ parse s data = Throw (ThrownOther what)).
Proof.
  pose proof (_parse_agree s p [] data) as Hstructural.
  pose proof (_parseWithRefinements_agree s p [] data) as Hfull.
  unfold parse. split; [|split; [|split]].
  - intros w. split; intros Hw.
    + exact (agree_Normal _ _ w Hstructural Hw).
    + exact (agree_Normal _ _ w (agree_sym _ _ Hstructural) Hw).
  - intros w. split; intros Hw.
    + exact (agree_Normal _ _ w Hfull Hw).
    + exact (agree_Normal _ _ w (agree_sym _ _ Hfull) Hw).
  - destruct (_parseWithRefinements s p data) as [v|[err|what]],
             (_parseWithRefinements s [] data) as [v'|[err'|what']];
      simpl in *; try contradiction; reflexivity.
  - intros what.
    destruct (_parseWithRefinements s p data) as [v|[err|what1]],
             (_parseWithRefinements s [] data) as [v'|[err'|what2]];
      simpl in *; try contradiction; split; try discriminate; congruence.
Qed.




(** X5. On plain data (what [JSON.parse] yields, with [Date]s), when no
    refinement predicate of the schema ever throws anything but a
    [ValidationError] and no shape declares [__proto__], [parse] throws
    nothing but [ValidationError]s and [safeParse] returns a result.
    Otherwise the construction of the message can throw:
    [string().safeParse(10n)] throws the [TypeError] of
    [JSON.stringify] on a [BigInt], and
    [object({["__proto__"]: string()}).safeParse(new Date())] that of
    [JSON.stringify] on [Date.prototype]. *)
Theorem safeParse_returns_on_plain_data `{Host} :
  (∀ s data,
     checks_raise_nothing_else s →
     declares_no_proto s = true →
     plain data →
     raises_other (parse s data) = false ∧ returns (safeParse s data) = true)
  ∧ (∀ z,
       JSON_stringify (VBigInt z) = None →
       parse validator.string (VBigInt z) = Throw stringify_error
       ∧ safeParse validator.string (VBigInt z) = Throw stringify_error)
  ∧ (∀ time,
       @safeParse plain_host (validator.object [("__proto__", validator.string)])
         (VDateObj time)
       = Throw stringify_error).
Proof.
  split; [|split].
  - intros s data Hchecks Hproto Hdata.
    pose proof (withRefinements_raises_nothing_else (refinements s) [] (_parse s [] data)
                  (checks_satisfy_refinements _ _ Hchecks)
                  (_parse_raises_nothing_else s Hchecks Hproto [] data (or_introl Hdata)))
      as Hparse.
    split; [exact Hparse|].
    unfold safeParse. unfold withRefinements in Hparse.
    destruct (_parse s [] data) as [value|[err|what]]; simpl in *; try reflexivity.
    + destruct (runRefinements (refinements s) value []) as [[]|[err|what]];
        simpl in *; try reflexivity. discriminate.
    + discriminate.
  - intros z Hnone.
    assert (Hthrow : _parse validator.string [] (VBigInt z) = Throw stringify_error).
    { simpl. destruct (@throw_makeError_cases _ Value [] "string" "bigint" (VBigInt z))
        as [(text & Htext & _)|[_ Hthrow]]; [congruence|exact Hthrow]. }
    unfold parse, _parseWithRefinements, safeParse. rewrite Hthrow. split; reflexivity.
  - intros time. vm_compute. reflexivity.
Qed.

(** ** Composites, member by member *)

(** X6. An array schema accepts a sequence exactly when the element
    schema's structural check, run on its own, accepts every item; the
    output then lists the checked items in order, one per input item (so
    the empty sequence is accepted by every array schema). *)
Theorem array_validates_elementwise `{Host}
    (element : VType) (rs : list Refinement) (p : Path) (items : list Value) (out : Value) :
  _parse (Schema (VArray element) rs) p (VArr items) = Normal out
  ↔ ∃ parsed,
      out = VArr parsed
      ∧ Forall2 (λ item w, _parse element [] item = Normal w) items parsed.
Proof.
  simpl. split.
  - destruct (map_items _ 0 items) as [parsed|e] eqn:Hitems; simpl; [|discriminate].
    intros [= <-]. exists parsed. split; [reflexivity|].
    apply map_items_Normal_inv in Hitems.
    eapply Forall2_impl; [exact Hitems|]. intros item w (j & Hw). simpl in Hw.
    exact (agree_Normal _ _ w (_parse_agree element _ [] item) Hw).
  - intros (parsed & -> & Hall).
    rewrite (map_items_all_Normal _ 0 items parsed); [reflexivity|].
    eapply Forall2_impl; [exact Hall|]. intros item w Hw j.
    exact (agree_Normal _ _ w (_parse_agree element [] _ item) Hw).
Qed.

(** X7. An object schema accepts an input exactly when the input passes
    the container check and every declared name, read from the input as
    [obj[key]] (an own property, else what the prototype chain
    provides, else [undefined]), is accepted by [parse] of that name's
    schema on its own; the output is the object obtained from [{}] by
    assigning the validated values under the declared names in shape
    order (an assignment to [__proto__] being one to the prototype).
    So a name that the input lacks is not simply missing:
    [object({constructor: string().optional()}).parse({})] finds the
    inherited method and throws. *)
Theorem object_validates_fieldwise `{Host} :
  (∀ shape rs p data out,
     _parse (Schema (VObject shape) rs) p data = Normal out
     ↔ is_object data = true
       ∧ ∃ values,
           Forall2 (λ field value,
                      (val ← get data field.1; parse field.2 val) = Normal value)
             shape values
           ∧ out = built_object (zip shape.*1 values))
  ∧ (∀ f,
       intrinsic_properties ObjectPrototype !! "constructor" = Some (VFunction f) →
       get (plain_object ∅) "constructor" = Normal (VFunction f)
       ∧ returns (parse (validator.object [("constructor", optional validator.string)])
                    (plain_object ∅)) = false).
Proof.
  split.
  - intros shape rs p data out. rewrite object_parse_unfold.
    assert (Hfield : ∀ key schema value,
              field_run p data key schema = Normal value
              ↔ (val ← get data key; parse schema val) = Normal value).
    { intros key schema value. unfold field_run.
      destruct (get data key) as [val|e]; simpl; [|reflexivity].
      split; intros Hvalue.
      - exact (agree_Normal _ _ value (_parseWithRefinements_agree schema _ [] _) Hvalue).
      - exact (agree_Normal _ _ value (_parseWithRefinements_agree schema [] _ _) Hvalue). }
    destruct (is_object data).
    + split.
      * intros Hrun. split; [reflexivity|].
        apply parse_fields_Normal in Hrun as (values & Hall & ->).
        exists values. split; [|reflexivity].
        eapply Forall2_impl; [exact Hall|]. intros [key schema] value. apply Hfield.
      * intros [_ (values & Hall & ->)]. apply parse_fields_all_Normal.
        eapply Forall2_impl; [exact Hall|]. intros [key schema] value. apply Hfield.
    + split; [|intros [[=] _]].
      intros Hrun. exfalso. exact (throw_makeError_Normal _ _ _ _ _ Hrun).
  - intros f Hconstructor.
    assert (Hget : get (plain_object ∅) "constructor" = Normal (VFunction f)).
    { unfold get. simpl. rewrite lookup_empty. unfold resolve_in_Object_prototype.
      simpl. rewrite Hconstructor. reflexivity. }
    split; [exact Hget|].
    unfold parse, _parseWithRefinements, validator.object.
    rewrite object_parse_unfold. simpl.
    unfold field_run. rewrite Hget. simpl.
    destruct (@throw_makeError_cases _ Value [Key "constructor"] "string" "function"
                (VFunction f)) as [(text & _ & ->)|[_ ->]]; reflexivity.
Qed.

(** X8. In the output of an object schema each declared name other than
    [__proto__] is an own property, and it holds the value that [parse]
    of the name's schema returns on the input's property of that name
    (the names of the shape being distinct); so a missing optional key
    is present in the output, with the value [undefined]. *)
Theorem object_output_holds_validated_fields `{Host}
    (shape : list (string * VType)) (rs : list Refinement) (p : Path) (data out : Value)
    (key : string) (schema : VType) :
  NoDup shape.*1 →
  key ≠ "__proto__" →
  _parse (Schema (VObject shape) rs) p data = Normal out →
  (key, schema) ∈ shape →
  ∃ val value props proto,
    get data key = Normal val
    ∧ parse schema val = Normal value
    ∧ out = VObj props proto
    ∧ props !! key = Some value
    ∧ get out key = Normal value.
Proof.
  intros Hnodup Hkey Hrun Hin.
  apply object_parse_Normal in Hrun as (_ & values & Hall & ->).
  apply list_elem_of_lookup in Hin as (i & Hfield).
  destruct (Forall2_lookup_l _ _ _ _ _ Hall Hfield) as (value & Hvalue & Hfield_ok).
  simpl in Hfield_ok. unfold field_run in Hfield_ok.
  destruct (get data key) as [val|e] eqn:Hget; simpl in Hfield_ok; [|discriminate].
  assert (Hread : (assign empty_result (zip shape.*1 values)).1 !! key = Some value).
  { apply (assign_lookup empty_result shape.*1 values i); [exact Hnodup|exact Hkey| |exact Hvalue].
    rewrite list_lookup_fmap, Hfield. reflexivity. }
  exists val, value, (assign empty_result (zip shape.*1 values)).1,
    (assign empty_result (zip shape.*1 values)).2.
  split; [reflexivity|]. split; [|split; [reflexivity|split; [exact Hread|]]].
  - exact (agree_Normal _ _ value (_parseWithRefinements_agree schema _ [] _) Hfield_ok).
  - unfold get, built_object. simpl. rewrite Hread. reflexivity.
Qed.

(** X9. Object validation stops at the first failing field in shape
    order: when the fields declared before it validate and a field
    (reading the property, then the structural check, then the
    refinements) throws, the object throws that very error, whatever
    fields are declared after it. *)
Theorem object_is_fail_fast `{Host}
    (before after : list (string * VType)) (key : string) (schema : VType)
    (rs : list Refinement) (p : Path) (data : Value) (e : Thrown) :
  is_object data = true →
  Forall (λ field,
            returns (val ← get data field.1;
                     _parseWithRefinements field.2 (p ++ [Key field.1]) val) = true)
    before →
  (val ← get data key; _parseWithRefinements schema (p ++ [Key key]) val) = Throw e →
  _parse (Schema (VObject (before ++ (key, schema) :: after)) rs) p data = Throw e.
Proof.
  intros Hobject Hbefore Hfield. rewrite object_parse_unfold, Hobject.
  exact (parse_fields_fail_fast (field_run p data) before key schema after empty_result e
           Hbefore Hfield).
Qed.

(** X10. A union is decided by its first option that does not throw a
    [ValidationError]: if that option returns, the union returns its
    value; if it throws something else, the union throws it too.  The
    options after it are not tried. *)
Theorem union_first_match_wins `{Host}
    (before after : list VType) (option : VType)
    (rs : list Refinement) (p : Path) (data : Value) :
  Forall (λ o, raises_ValidationError (_parse o p data) = true) before →
  raises_ValidationError (_parse option p data) = false →
  _parse (Schema (VUnion (before ++ option :: after)) rs) p data = _parse option p data.
Proof.
  intros Hbefore Hoption. simpl.
  exact (try_options_first_decisive (λ o, _parse o p data) before option after []
           Hbefore Hoption).
Qed.

(** ** Literals, refinements, sentinels *)

(** X11. A literal schema returns its own value, and only for an input
    that [===] that value.  A literal [NaN] therefore accepts nothing,
    not even [NaN]: it never returns, and what it throws is a
    [ValidationError] whenever the input can be rendered in the message;
    a literal [0] accepts [-0] and returns [0]; the string ["1"] is not
    the number [1]. *)
Theorem literal_returns_its_own_value `{Host} :
  (∀ val rs p data w,
     _parse (Schema (VLiteral val) rs) p data = Normal w →
     w = literal_value val ∧ strict_equals data val = true)
  ∧ (∀ rs p data,
       returns (_parse (Schema (VLiteral (LNumber S754_nan)) rs) p data) = false
       ∧ (is_Some (JSON_stringify data) →
          raises_ValidationError (_parse (Schema (VLiteral (LNumber S754_nan)) rs) p data)
          = true))
  ∧ parse (validator.literal (LNumber (S754_zero false))) (VNum (S754_zero true))
    = Normal (VNum (S754_zero false))
  ∧ raises_ValidationError (parse (validator.literal (LString "1")) (int 1)) = true.
Proof.
  split; [|split; [|split; [reflexivity|]]].
  - intros val rs p data w. apply literal_parse_Normal.
  - intros rs p data. simpl.
    assert (Hnever : strict_equals data (LNumber S754_nan) = false).
    { destruct data; try reflexivity. simpl. destruct n; reflexivity. }
    rewrite Hnever. unfold stringify.
    destruct (JSON_stringify_plain (VNum S754_nan) (plain_primitive (VNum S754_nan) eq_refl))
      as [text ->]. simpl.
    split; [apply throw_makeError_returns|].
    intros [rendered Hrendered].
    destruct (@throw_makeError_cases _ Value p ("literal " +:+ text) (typeof data) data)
      as [(text' & _ & ->)|[Hnone _]]; [reflexivity|congruence].
  - unfold parse, _parseWithRefinements. simpl. unfold stringify.
    destruct (JSON_stringify_plain (VStr "1") (plain_primitive (VStr "1") eq_refl))
      as [text ->]. simpl.
    match goal with
    | |- context [@throw_makeError _ _ ?q ?exp ?rcv ?value] =>
        destruct (@throw_makeError_plain _ Value q exp rcv value
                    (plain_primitive value eq_refl)) as (rendered & _ & ->)
    end.
    reflexivity.
Qed.

(** X12. Adding a refinement narrows a schema and changes nothing else:
    the refined schema returns [w] exactly when the schema returned [w]
    and the new predicate holds of [w]; and whatever the schema threw
    before, it still throws. *)
Theorem refine_narrows `{Host}
    (s : VType) (chk : Value → Completion bool) (msg : string) (data : Value) :
  (∀ w, parse (refine s chk msg) data = Normal w
        ↔ parse s data = Normal w ∧ chk w = Normal true)
  ∧ (∀ e, parse s data = Throw e → parse (refine s chk msg) data = Throw e).
Proof.
  unfold parse, _parseWithRefinements, withRefinements.
  rewrite _parse_refine. destruct s as [v rs]. simpl refinements.
  destruct (_parse (Schema v rs) [] data) as [value|e0]; simpl;
    [|split; [intros w; split; [discriminate|intros [[=] _]]|auto]].
  rewrite runRefinements_app. simpl.
  destruct (runRefinements rs value []) as [[]|e1]; simpl;
    [|split; [intros w; split; [discriminate|intros [[=] _]]|auto]].
  cbv [mret Completion_ret]. split; [|discriminate].
  intros w. destruct (chk value) as [[]|e2] eqn:Hchk; simpl.
  - split; [intros [= <-]; auto|intros [Hw _]; exact Hw].
  - split; [discriminate|intros [[= <-] Hw]; congruence].
  - split; [discriminate|intros [[= <-] Hw]; congruence].
Qed.

(** X13. [optional] lets [undefined] through and [nullable] lets [null]
    through, whatever the inner schema is; stacked in either order they
    let both through; each alone hands the other sentinel to the inner
    schema's structural check.  A refinement added to the wrapper itself
    does run on the sentinel. *)
Theorem sentinels_compose `{Host} (s : VType) :
  parse (optional s) VUndefined = Normal VUndefined
  ∧ parse (nullable s) VNull = Normal VNull
  ∧ parse (nullable (optional s)) VUndefined = Normal VUndefined
  ∧ parse (nullable (optional s)) VNull = Normal VNull
  ∧ parse (optional (nullable s)) VUndefined = Normal VUndefined
  ∧ parse (optional (nullable s)) VNull = Normal VNull
  ∧ parse (optional s) VNull = _parse s [] VNull
  ∧ parse (nullable s) VUndefined = _parse s [] VUndefined
  ∧ (∀ chk msg,
       parse (refine (optional s) chk msg) VUndefined
       = (ok ← chk VUndefined;
          if ok : bool then Normal VUndefined
          else Throw (ThrownValidation (refinement_error [] msg VUndefined)))).
Proof.
  repeat split; try reflexivity.
  - apply parse_optional_delegates. discriminate.
  - apply parse_nullable_delegates. discriminate.
  - intros chk msg. unfold parse, _parseWithRefinements, withRefinements. simpl.
    destruct (chk VUndefined) as [[]|e]; reflexivity.
Qed.

(** X14. A schema in which no object schema occurs returns its input as
    it came: nothing is coerced, added or removed.  Without literals in
    the schema the output is the input itself, each array having been
    copied item by item ([Array.prototype], which is an array, coming
    back as [[]]), so that plain data comes back equal; a literal returns
    its own value, which can differ from the input it matched in the
    sign of a zero and in nothing else. *)
Theorem parse_without_objects_returns_its_input `{Host} (s : VType) (data w : Value) :
  object_free s = true →
  parse s data = Normal w →
  similar data w
  ∧ (literal_free s = true → kept data w ∧ (plain data → w = data)).
Proof.
  intros Hfree Hparse. unfold parse, _parseWithRefinements in Hparse.
  apply withRefinements_Normal in Hparse as [Hparse _].
  destruct (object_free_output s Hfree [] data w Hparse) as [Hsimilar Hkept].
  split; [exact Hsimilar|]. intros Hliteral. split; [exact (Hkept Hliteral)|].
  intros Hplain. exact (kept_plain data w (Hkept Hliteral) Hplain).
Qed.

(** X15. [parse] returns [w] exactly when the structural check returns
    [w] and every refinement of the schema, applied to [w] (the checked
    value, not the raw input), returns true. *)
Theorem returned_value_satisfies_every_refinement `{Host} (s : VType) (data w : Value) :
  parse s data = Normal w
  ↔ _parse s [] data = Normal w
    ∧ Forall (λ r, check r w = Normal true) (refinements s).
Proof.
  unfold parse, _parseWithRefinements. split.
  - intros Hparse. apply withRefinements_Normal in Hparse as [Hstructural Hrefs].
    split; [exact Hstructural|]. apply (runRefinements_Normal_iff _ w []). exact Hrefs.
  - intros [Hstructural Hrefs]. apply (runRefinements_Normal_iff _ w []) in Hrefs.
    unfold withRefinements. rewrite Hstructural. simpl. rewrite Hrefs. reflexivity.
Qed.

(** ** The further statements at concrete inputs *)



Lemma ages_schema_checks : checks_raise_nothing_else ages_schema.
Proof.
  repeat (constructor; simpl); intros value; destruct value; reflexivity.
Qed.

Lemma parse_outcome_is_independent_of_path_witness :
  @_parse plain_host validator.number [Key "age"] (int 1) = Normal (int 1)
  ∧ @_parse plain_host validator.number [] (int 1) = Normal (int 1).
Proof.
  split; [reflexivity|].
  apply (proj1 (proj1 (@parse_outcome_is_independent_of_path plain_host
                         validator.number [Key "age"] (int 1)) (int 1))).
  reflexivity.
Defined.




Lemma safeParse_returns_on_plain_data_witness :
  (checks_raise_nothing_else ages_schema
   ∧ declares_no_proto ages_schema = true
   ∧ plain (VArr [plain_object (<["age" := int (-1)]> ∅)]))
  ∧ raises_other (@parse plain_host ages_schema
                    (VArr [plain_object (<["age" := int (-1)]> ∅)])) = false
  ∧ returns (@safeParse plain_host ages_schema
               (VArr [plain_object (<["age" := int (-1)]> ∅)])) = true.
Proof.
  assert (Hproto : declares_no_proto ages_schema = true) by (vm_compute; reflexivity).
  assert (Hdata : plain (VArr [plain_object (<["age" := int (-1)]> ∅)])).
  { apply plain_arr. constructor; [|constructor].
    apply plain_object_insert; [apply plain_int|apply plain_object_empty]. }
  split; [split; [exact ages_schema_checks|split; [exact Hproto|exact Hdata]]|].
  exact (proj1 (@safeParse_returns_on_plain_data plain_host) ages_schema
           (VArr [plain_object (<["age" := int (-1)]> ∅)])
           ages_schema_checks Hproto Hdata).
Defined.

Lemma array_validates_elementwise_witness :
  (∃ parsed,
     VArr [int 1; int 2] = VArr parsed
     ∧ Forall2 (λ item w, @_parse plain_host validator.number [] item = Normal w)
         [int 1; int 2] parsed)
  ∧ @_parse plain_host (validator.array validator.number) [Key "xs"] (VArr [int 1; int 2])
    = Normal (VArr [int 1; int 2]).
Proof.
  assert (Hitems : ∃ parsed,
     VArr [int 1; int 2] = VArr parsed
     ∧ Forall2 (λ item w, @_parse plain_host validator.number [] item = Normal w)
         [int 1; int 2] parsed)
    by (exists [int 1; int 2]; split; [reflexivity|repeat constructor]).
  split; [exact Hitems|].
  exact (proj2 (@array_validates_elementwise plain_host validator.number []
                  [Key "xs"] [int 1; int 2] (VArr [int 1; int 2])) Hitems).
Defined.

Lemma object_validates_fieldwise_witness :
  (@_parse plain_host user_schema []
     (plain_object
        (<["username" := VStr "john"]> (<["age" := int 1]> (<["extra" := VNull]> ∅))))
   = Normal (plain_object (<["username" := VStr "john"]> (<["age" := int 1]> ∅)))
   ∧ is_object
       (plain_object
          (<["username" := VStr "john"]> (<["age" := int 1]> (<["extra" := VNull]> ∅))))
     = true)
  ∧ (@intrinsic_properties plain_host ObjectPrototype !! "constructor"
     = Some (VFunction "Object.prototype.constructor")
     ∧ @get plain_host (plain_object ∅) "constructor"
       = Normal (VFunction "Object.prototype.constructor")
     ∧ returns (@parse plain_host
                  (validator.object [("constructor", optional validator.string)])
                  (plain_object ∅)) = false).
Proof.
  assert (Hrun :
    @_parse plain_host user_schema []
      (plain_object
         (<["username" := VStr "john"]> (<["age" := int 1]> (<["extra" := VNull]> ∅))))
    = Normal (plain_object (<["username" := VStr "john"]> (<["age" := int 1]> ∅))))
    by (vm_compute; reflexivity).
  assert (Hconstructor :
    @intrinsic_properties plain_host ObjectPrototype !! "constructor"
    = Some (VFunction "Object.prototype.constructor"))
    by (vm_compute; reflexivity).
  split.
  - split; [exact Hrun|].
    exact (proj1 (proj1 (proj1 (@object_validates_fieldwise plain_host) _ [] [] _ _) Hrun)).
  - split; [exact Hconstructor|].
    exact (proj2 (@object_validates_fieldwise plain_host) _ Hconstructor).
Defined.

Lemma object_output_holds_validated_fields_witness :
  (NoDup [("email", optional validator.string)].*1
   ∧ "email" ≠ "__proto__"
   ∧ @_parse plain_host (validator.object [("email", optional validator.string)]) []
       (plain_object ∅)
     = Normal (plain_object {["email" := VUndefined]})
   ∧ ("email", optional validator.string) ∈ [("email", optional validator.string)])
  ∧ ∃ val value props proto,
      @get plain_host (plain_object ∅) "email" = Normal val
      ∧ @parse plain_host (optional validator.string) val = Normal value
      ∧ plain_object {["email" := VUndefined]} = VObj props proto
      ∧ props !! "email" = Some value
      ∧ @get plain_host (plain_object {["email" := VUndefined]}) "email" = Normal value.
Proof.
  assert (Hnodup : NoDup [("email", optional validator.string)].*1)
    by (repeat constructor; apply not_elem_of_nil).
  assert (Hkey : "email" ≠ "__proto__") by discriminate.
  assert (Hrun :
    @_parse plain_host (validator.object [("email", optional validator.string)]) []
      (plain_object ∅)
    = Normal (plain_object {["email" := VUndefined]}))
    by (vm_compute; reflexivity).
  assert (Hin : ("email", optional validator.string) ∈ [("email", optional validator.string)])
    by left.
  split; [split; [exact Hnodup|split; [exact Hkey|split; [exact Hrun|exact Hin]]]|].
  exact (@object_output_holds_validated_fields plain_host _ [] [] _ _ _ _
           Hnodup Hkey Hrun Hin).
Defined.

Lemma object_is_fail_fast_witness :
  (is_object (plain_object (<["username" := VStr "john"]> (<["age" := int (-1)]> ∅))) = true
   ∧ Forall (λ field,
        returns (val ← @get plain_host
                         (plain_object
                            (<["username" := VStr "john"]> (<["age" := int (-1)]> ∅)))
                         field.1;
                 @_parseWithRefinements plain_host field.2 ([] ++ [Key field.1]) val) = true)
       [("username", refine validator.string (min_length 3)
                       "Username must be at least 3 characters")]
   ∧ (val ← @get plain_host
               (plain_object (<["username" := VStr "john"]> (<["age" := int (-1)]> ∅)))
               "age";
      @_parseWithRefinements plain_host
        (refine validator.number non_negative "Must be non-negative") ([] ++ [Key "age"]) val)
     = Throw (ThrownValidation
         (refinement_error [Key "age"] "Must be non-negative" (int (-1)))))
  ∧ @_parse plain_host user_schema []
      (plain_object (<["username" := VStr "john"]> (<["age" := int (-1)]> ∅)))
    = Throw (ThrownValidation
        (refinement_error [Key "age"] "Must be non-negative" (int (-1)))).
Proof.
  assert (Hbefore : Forall (λ field,
        returns (val ← @get plain_host
                         (plain_object
                            (<["username" := VStr "john"]> (<["age" := int (-1)]> ∅)))
                         field.1;
                 @_parseWithRefinements plain_host field.2 ([] ++ [Key field.1]) val) = true)
       [("username", refine validator.string (min_length 3)
                       "Username must be at least 3 characters")])
    by (repeat constructor).
  assert (Hfield :
    (val ← @get plain_host
              (plain_object (<["username" := VStr "john"]> (<["age" := int (-1)]> ∅)))
              "age";
     @_parseWithRefinements plain_host
       (refine validator.number non_negative "Must be non-negative") ([] ++ [Key "age"]) val)
     = Throw (ThrownValidation
         (refinement_error [Key "age"] "Must be non-negative" (int (-1)))))
    by (vm_compute; reflexivity).
  split; [split; [reflexivity|split; [exact Hbefore|exact Hfield]]|].
  exact (@object_is_fail_fast plain_host
           [("username", refine validator.string (min_length 3)
                           "Username must be at least 3 characters")]
           [] "age" (refine validator.number non_negative "Must be non-negative")
           [] []
           (plain_object (<["username" := VStr "john"]> (<["age" := int (-1)]> ∅)))
           _ eq_refl Hbefore Hfield).
Defined.

Lemma union_first_match_wins_witness :
  (Forall (λ o, raises_ValidationError (@_parse plain_host o [] (int 1)) = true)
     [validator.string]
   ∧ raises_ValidationError (@_parse plain_host validator.number [] (int 1)) = false)
  ∧ @_parse plain_host
      (Schema (VUnion ([validator.string] ++ validator.number :: [validator.boolean])) [])
      [] (int 1)
    = @_parse plain_host validator.number [] (int 1).
Proof.
  assert (Hbefore :
    Forall (λ o, raises_ValidationError (@_parse plain_host o [] (int 1)) = true)
      [validator.string]) by (repeat constructor).
  split; [split; [exact Hbefore|reflexivity]|].
  exact (@union_first_match_wins plain_host [validator.string] [validator.boolean]
           validator.number [] [] (int 1) Hbefore eq_refl).
Defined.

Lemma literal_returns_its_own_value_witness :
  (@_parse plain_host (Schema (VLiteral (LString "a")) []) [] (VStr "a") = Normal (VStr "a")
   ∧ VStr "a" = literal_value (LString "a")
   ∧ strict_equals (VStr "a") (LString "a") = true)
  ∧ (is_Some (@JSON_stringify plain_host (VNum S754_nan))
     ∧ raises_ValidationError
         (@_parse plain_host (Schema (VLiteral (LNumber S754_nan)) []) [] (VNum S754_nan))
       = true).
Proof.
  split.
  - split; [reflexivity|].
    exact (proj1 (@literal_returns_its_own_value plain_host)
             (LString "a") [] [] (VStr "a") (VStr "a") eq_refl).
  - assert (Hrendered : is_Some (@JSON_stringify plain_host (VNum S754_nan)))
      by (vm_compute; eauto).
    split; [exact Hrendered|].
    exact (proj2 (proj1 (proj2 (@literal_returns_its_own_value plain_host))
                    [] [] (VNum S754_nan)) Hrendered).
Defined.

Lemma refine_narrows_witness :
  (@parse plain_host validator.string (VStr "john") = Normal (VStr "john")
   ∧ min_length 3 (VStr "john") = Normal true)
  ∧ @parse plain_host (refine validator.string (min_length 3) "too short") (VStr "john")
    = Normal (VStr "john").
Proof.
  split; [split; reflexivity|].
  apply (proj2 (proj1 (@refine_narrows plain_host validator.string (min_length 3)
                         "too short" (VStr "john")) (VStr "john"))).
  split; reflexivity.
Defined.

Lemma parse_without_objects_witness :
  ((object_free (validator.union [validator.literal (LNumber (S754_zero false));
                                  validator.string]) = true
    ∧ @parse plain_host
        (validator.union [validator.literal (LNumber (S754_zero false)); validator.string])
        (VNum (S754_zero true))
      = Normal (VNum (S754_zero false)))
   ∧ similar (VNum (S754_zero true)) (VNum (S754_zero false)))
  ∧ ((object_free (validator.array validator.number) = true
      ∧ literal_free (validator.array validator.number) = true
      ∧ plain (VArr [VNum (S754_zero true); int 1])
      ∧ @parse plain_host (validator.array validator.number)
          (VArr [VNum (S754_zero true); int 1])
        = Normal (VArr [VNum (S754_zero true); int 1]))
     ∧ VArr [VNum (S754_zero true); int 1] = VArr [VNum (S754_zero true); int 1]).
Proof.
  split.
  - split; [split; reflexivity|].
    exact (proj1 (@parse_without_objects_returns_its_input plain_host
                    (validator.union [validator.literal (LNumber (S754_zero false));
                                      validator.string])
                    (VNum (S754_zero true)) (VNum (S754_zero false)) eq_refl eq_refl)).
  - assert (Hplain : plain (VArr [VNum (S754_zero true); int 1])).
    { apply plain_arr. repeat constructor; apply plain_primitive; reflexivity. }
    assert (Hparse :
      @parse plain_host (validator.array validator.number)
        (VArr [VNum (S754_zero true); int 1])
      = Normal (VArr [VNum (S754_zero true); int 1])) by reflexivity.
    split; [split; [reflexivity|split; [reflexivity|split; [exact Hplain|exact Hparse]]]|].
    exact (proj2 (proj2 (@parse_without_objects_returns_its_input plain_host
                           (validator.array validator.number)
                           (VArr [VNum (S754_zero true); int 1])
                           (VArr [VNum (S754_zero true); int 1]) eq_refl Hparse)
                    eq_refl) Hplain).
Defined.

Lemma returned_value_satisfies_every_refinement_witness :
  @parse plain_host (refine validator.string (min_length 3) "too short") (VStr "john")
  = Normal (VStr "john")
  ∧ Forall (λ r, check r (VStr "john") = Normal true)
      (refinements (refine validator.string (min_length 3) "too short")).
Proof.
  assert (Hparse :
    @parse plain_host (refine validator.string (min_length 3) "too short") (VStr "john")
    = Normal (VStr "john")) by reflexivity.
  split; [exact Hparse|].
  exact (proj2 (proj1 (@returned_value_satisfies_every_refinement plain_host _ _ _) Hparse)).
Defined.
